(** * IntelGraph gateway (server/server.js): bootstrap, security pipeline,
      authentication context and process lifecycle.

    The development is a shallow embedding of [server.js].  Collaborators
    that live outside the file (the [net] module, the rate-limit
    middleware, the Apollo subscription server, the databases) appear as
    explicit environments: a value of the environment fixes what each
    call answers, and the gateway code is a function of it. *)

From stdpp Require Import base numbers strings pretty list gmap.

Open Scope Z_scope.
Open Scope string_scope.

(** ** JavaScript values used by the gateway *)

Module Js.

(** An error object: [err.code] (absent on a plain [new Error(msg)]) and
    [err.message] (absent when a non-Error value was thrown). *)
Record Error := mkError { code : option string; message : option string }.

(** [new Error(msg)] *)
Definition newError (msg : string) : Error :=
  {| code := None; message := Some msg |}.

(** A settled promise. *)
Inductive Promise (A : Type) : Type :=
| Resolved (a : A)
| Rejected (err : Error).
Arguments Resolved {A} a.
Arguments Rejected {A} err.

(** [p.then(f)] on a settled promise, [f] itself asynchronous. *)
Definition andThen {A B : Type} (p : Promise A) (f : A -> Promise B) : Promise B :=
  match p with
  | Resolved a => f a
  | Rejected e => Rejected e
  end.

Definition pmap {A B : Type} (f : A -> B) (p : Promise A) : Promise B :=
  andThen p (fun a => Resolved (f a)).

(** A value inside a template literal; [undefined] prints as its name. *)
Definition interpolate (v : option string) : string :=
  match v with
  | Some s => s
  | None => "undefined"
  end.

(** The string a value is, once it is known to be a string (it passed a
    truthiness test). *)
Definition theString (v : option string) : string :=
  match v with
  | Some s => s
  | None => ""
  end.

(** [list.includes(v)] on an array of strings. *)
Definition includes (list : list string) (v : option string) : bool :=
  match v with
  | Some s => bool_decide (s ∈ list)
  | None => false
  end.

(** Truthiness of a string-or-undefined value: [undefined] and the empty
    string are falsy. *)
Definition truthy (v : option string) : bool :=
  match v with
  | Some "" | None => false
  | Some _ => true
  end.

(** [s.replace(pat, rep)] with a string pattern: the first occurrence of
    [pat], wherever it is, is replaced. *)
Fixpoint replace (pat rep s : string) : string :=
  if String.prefix pat s
  then rep +:+ String.substring (String.length pat) (String.length s - String.length pat) s
  else match s with
       | "" => ""
       | String c s' => String c (replace pat rep s')
       end.

(** [Math.ceil(a / b)] for an integer [a] and a positive integer [b]. *)
Definition ceilDiv (a b : Z) : Z := - ((- a) `div` b).

End Js.
Import Js.

(** ** Configuration ([./src/config]) *)

Module Cfg.
Record CorsConfig := { origin : string + list string }.
Record RateLimitConfig := { windowMs : Z; maxRequests : Z }.
Record Config := {
  env : string;
  port : Z;
  cors : CorsConfig;
  rateLimit : RateLimitConfig
}.
End Cfg.
Abbreviation Config := Cfg.Config.

Definition isProduction (config : Config) : bool := Cfg.env config =? "production".
Definition isDevelopment (config : Config) : bool := Cfg.env config =? "development".

(** ** Port resolver *)

Module PortResolver.

(** What [server.listen(port)] on a fresh [net] server leads to: the
    listening callback, where [server.address().port] is read, or the
    ['error'] event. *)
Inductive ListenOutcome :=
| Listening (address_port : Z)
| ListenError (err : Error).

Definition EADDRINUSE : string := "EADDRINUSE".

Definition exhausted (config : Config) : Error :=
  newError ("No available ports found in range " +:+ pretty (Cfg.port config) +:+ "-5000").

Section Resolver.
Variable config : Config.
(** The answer of the operating system to a probe of each port.  A run
    probes strictly increasing ports, so each port is asked at most
    once and a function of the port is all a run can observe. *)
Variable listen : Z -> ListenOutcome.

(** [probe n startPort]: the body of [findAvailablePort]; [n] bounds the
    recursive calls still allowed. *)
Fixpoint probe (n : nat) (startPort : Z) : Promise Z :=
  match listen startPort with
  | Listening port => Resolved port
  | ListenError err =>
      if bool_decide (code err = Some EADDRINUSE) then
        if bool_decide (5000 <= startPort) then
          Rejected (exhausted config)
        else
          match n with
          | O => Rejected (exhausted config)
          | S n' => probe n' (startPort + 1)
          end
      else
        Rejected err
  end.

(** The recursion climbs from [startPort] and stops at 5000 at the
    latest, so [5000 - startPort] calls are enough. *)
Definition findAvailablePort (startPort : Z) : Promise Z :=
  probe (Z.to_nat (5000 - startPort)) startPort.

(** A port whose probe binds. *)
Definition free (q : Z) : bool :=
  match listen q with
  | Listening _ => true
  | ListenError _ => false
  end.

(** A port whose probe hits a bind conflict. *)
Definition conflict (q : Z) : bool :=
  match listen q with
  | Listening _ => false
  | ListenError err => bool_decide (code err = Some EADDRINUSE)
  end.

End Resolver.

(** The port a run of the resolver ends with, if it ends with one. *)
Definition portOf (r : Promise Z) : option Z :=
  match r with
  | Resolved port => Some port
  | Rejected _ => None
  end.

End PortResolver.

(** ** Effects of gateway code: log lines, collaborator calls, process exit *)

Module Proc.

(** [logger.info], [logger.warn], [logger.error] *)
Inductive Level := INFO | WARN | ERROR.

(** The collaborators [startServer] and the signal handler call. *)
Inductive Callee :=
| initSocket | setIO | startAIWorker | newAnalyticsBridge | bridge_start
| connectNeo4j | connectPostgres | connectRedis
| installMiddleware
| apolloServer_start | apolloServer_applyMiddleware
| findAvailablePort (startPort : Z)
| httpServer_listen (PORT : Z)
| apolloServer_stop | closeConnections | httpServer_close.

Inductive Event :=
| Log (level : Level) (line : string)
| Call (c : Callee)
| Exit (status : Z).

(** How a piece of code ends: it returns, it throws (or its promise
    rejects), or [process.exit] ended the process inside it. *)
Inductive Outcome (A : Type) : Type :=
| Done (a : A)
| Threw (err : Error)
| Exited (status : Z).
Arguments Done {A} a.
Arguments Threw {A} err.
Arguments Exited {A} status.

Definition Proc (A : Type) : Type := list Event * Outcome A.

Definition ret {A : Type} (a : A) : Proc A := ([], Done a).

Definition bind {A B : Type} (m : Proc A) (f : A -> Proc B) : Proc B :=
  match m with
  | (t, Done a) => let '(t', o) := f a in ((t ++ t')%list, o)
  | (t, Threw e) => (t, Threw e)
  | (t, Exited s) => (t, Exited s)
  end.

Definition emit (e : Event) : Proc unit := ([e], Done tt).
Definition log (level : Level) (line : string) : Proc unit := emit (Log level line).
Definition throw {A : Type} (e : Error) : Proc A := ([], Threw e).
(** [process.exit(status)]: nothing after it runs. *)
Definition exit {A : Type} (status : Z) : Proc A := ([Exit status], Exited status).

(** [try { m } catch (error) { h error }] *)
Definition tryCatch {A : Type} (m : Proc A) (h : Error -> Proc A) : Proc A :=
  match m with
  | (t, Threw e) => let '(t', o) := h e in ((t ++ t')%list, o)
  | _ => m
  end.

(** [await p] *)
Definition await {A : Type} (p : Promise A) : Proc A :=
  match p with
  | Resolved a => ret a
  | Rejected e => throw e
  end.

Definition trace {A : Type} (m : Proc A) : list Event := fst m.
Definition outcome {A : Type} (m : Proc A) : Outcome A := snd m.

End Proc.
Import Proc.

Notation "'bind!' x <- m ; k" := (Proc.bind m (fun x => k))
  (at level 10, x name, m at level 100, k at level 200).
Notation "'run!' m ; k" := (Proc.bind m (fun _ => k))
  (at level 10, m at level 100, k at level 200).

(** ** HTTP requests and replies *)

Module Http.

(** The parts of an Express request the gateway reads: [req.ip],
    [req.path], [req.headers.authorization]. *)
Record Request := { ip : string; path : string; authorization : option string }.

(** A reply body: a JSON object with the fields the gateway sets (a field
    that is [None] is left out of the object), or plain text. *)
Inductive Body :=
| Json (error : string) (message : option string) (retryAfter : option Z)
| Text (s : string).

Definition retryAfterOf (b : Body) : option Z :=
  match b with
  | Json _ _ r => r
  | Text _ => None
  end.

(** What a middleware does with a request: hand it on ([next()]) or
    answer it. *)
Inductive Reply :=
| Next
| Send (status : Z) (body : Body).

End Http.
Import Http.

(** ** Origin validation ([corsOptions.origin]) *)

Module Cors.

(** The two ways the callback is called: [callback(null, true)] and
    [callback(err)]. *)
Inductive Decision :=
| Allowed
| Refused (err : Error).

Definition allowedOrigins (config : Config) : list string :=
  match Cfg.origin (Cfg.cors config) with
  | inr origins => origins
  | inl single => [single]
  end.

(** [origin] is [req.headers.origin]: [None] when the header is absent. *)
Definition corsOrigin (config : Config) (origin : option string) : Proc Decision :=
  if isDevelopment config then
    ret Allowed
  else
    if negb (truthy origin) || includes (allowedOrigins config) origin then
      ret Allowed
    else
      run! log WARN ("CORS blocked origin: " +:+ interpolate origin);
      ret (Refused (newError "Not allowed by CORS")).

(** The refusal of an origin, with its warning line. *)
Definition refusal (origin : option string) : Proc Decision :=
  ([Log WARN ("CORS blocked origin: " +:+ interpolate origin)],
   Done (Refused (newError "Not allowed by CORS"))).

(** The origins the allow-list branch lets through: no origin (the header
    is absent or empty) or a listed one. *)
Definition listed (config : Config) (origin : option string) : Prop :=
  truthy origin = false \/ exists o, origin = Some o /\ o ∈ allowedOrigins config.

End Cors.

(** ** Rate limiting *)

Module RateLimit.

(** The options object passed to [rateLimit(...)].  [handler = None] and
    [skip = None] stand for an option the call site leaves out. *)
Record Options := {
  windowMs : Z;
  max : Z;
  message : Body;
  handler : option (Request -> Proc Reply);
  skip : option (Request -> bool);
  skipSuccessfulRequests : bool
}.

Definition generalLimiter (config : Config) : Options := {|
  windowMs := Cfg.windowMs (Cfg.rateLimit config);
  max := Cfg.maxRequests (Cfg.rateLimit config);
  message := Json "Too many requests from this IP address" None
               (Some (ceilDiv (Cfg.windowMs (Cfg.rateLimit config)) 1000));
  handler := Some (fun req =>
    run! log WARN ("Rate limit exceeded for IP: " +:+ ip req +:+ " on " +:+ path req);
    ret (Send 429 (Json "Rate limit exceeded"
                        (Some "Too many requests from this IP address")
                        (Some (ceilDiv (Cfg.windowMs (Cfg.rateLimit config)) 1000)))));
  skip := Some (fun req => path req =? "/health");
  skipSuccessfulRequests := false
|}.

Definition authLimiter (config : Config) : Options := {|
  windowMs := 15 * 60 * 1000;
  max := if isProduction config then 5 else 50;
  message := Json "Too many authentication attempts" None (Some (15 * 60));
  handler := None;
  skip := None;
  skipSuccessfulRequests := true
|}.

(** The limiter mounted on [/graphql]; it sets neither a message nor a
    handler, so the middleware's own default text is sent. *)
Definition graphqlLimiter (config : Config) : Options := {|
  windowMs := 1 * 60 * 1000;
  max := if isProduction config then 100 else 1000;
  message := Text "Too many requests, please try again later.";
  handler := None;
  skip := None;
  skipSuccessfulRequests := false
|}.

(** *** The middleware built from the options

    [express-rate-limit] is a dependency, not gateway code.  Its
    fixed-window contract is written out here: one counter per client
    key ([req.ip]), opened by the client's first counted request and
    closed [windowMs] later; a request that brings the counter above
    [max] goes to the handler, every other one to [next()]. *)

Record Counter := { totalHits : Z; resetTime : Z }.

(** A request as the limiter meets it: arrival time in milliseconds, and
    whether the reply the rest of the pipeline gave was a success.
    Arrivals are taken one after the other, the reply to one finished
    before the next arrives: the library forgets a successful hit (under
    [skipSuccessfulRequests]) when the reply has finished, which
    [middleware] does in the step of the arrival; for requests of one
    client that overlap this counts too little. *)
Record Arrival := { now : Z; request : Request; succeeded : bool }.

Definition increment (o : Options) (t : Z) (key : string)
    (store : gmap string Counter) : Counter :=
  match store !! key with
  | Some c =>
      if bool_decide (t < resetTime c)
      then {| totalHits := totalHits c + 1; resetTime := resetTime c |}
      else {| totalHits := 1; resetTime := t + windowMs o |}
  | None => {| totalHits := 1; resetTime := t + windowMs o |}
  end.

Definition decrement (c : Counter) : Counter :=
  {| totalHits := totalHits c - 1; resetTime := resetTime c |}.

Definition onLimit (o : Options) (req : Request) : Proc Reply :=
  match handler o with
  | Some h => h req
  | None => ret (Send 429 (message o))
  end.

Definition skipped (o : Options) (req : Request) : bool :=
  match skip o with
  | Some f => f req
  | None => false
  end.

Definition middleware (o : Options) (a : Arrival) (store : gmap string Counter)
    : Proc Reply * gmap string Counter :=
  if skipped o (request a) then (ret Next, store)
  else
    let key := ip (request a) in
    let c := increment o (now a) key store in
    if bool_decide (max o < totalHits c) then
      (onLimit o (request a), <[key := c]> store)
    else if skipSuccessfulRequests o && succeeded a then
      (ret Next, <[key := decrement c]> store)
    else
      (ret Next, <[key := c]> store).

(** The limiter over a sequence of arrivals: the replies, in order, and
    the store left behind. *)
Fixpoint serve (o : Options) (arrivals : list Arrival) (store : gmap string Counter)
    : list (Proc Reply) * gmap string Counter :=
  match arrivals with
  | [] => ([], store)
  | a :: rest =>
      let '(r, store') := middleware o a store in
      let '(rs, store'') := serve o rest store' in
      (r :: rs, store'')
  end.

(** Seconds left, rounded up, until the window of counter [c] closes. *)
Definition remainingSeconds (c : Counter) (t : Z) : Z :=
  ceilDiv (resetTime c - t) 1000.

(** The arrivals of client [key] that the limiter counts. *)
Definition counted (o : Options) (key : string) (arrivals : list Arrival) : nat :=
  length (filter (fun a => skipped o (request a) = false /\ ip (request a) = key) arrivals).

(** Client [key] has no window open at time [t0]. *)
Definition noOpenWindow (store : gmap string Counter) (key : string) (t0 : Z) : Prop :=
  match store !! key with
  | Some c => resetTime c <= t0
  | None => True
  end.

(** The counter of client [key] accounts for [n] counted arrivals of a
    window that began at [t0] or later. *)
Definition tracks (o : Options) (store : gmap string Counter) (key : string)
    (t0 : Z) (n : nat) : Prop :=
  match n with
  | O => noOpenWindow store key t0
  | S _ => exists c, store !! key = Some c /\ totalHits c = Z.of_nat n /\
                     t0 + windowMs o <= resetTime c
  end.

(** The reply of the general rule's handler. *)
Definition tooMany (config : Config) (req : Request) : Proc Reply :=
  ([Log WARN ("Rate limit exceeded for IP: " +:+ ip req +:+ " on " +:+ path req)],
   Done (Send 429 (Json "Rate limit exceeded"
                        (Some "Too many requests from this IP address")
                        (Some (ceilDiv (Cfg.windowMs (Cfg.rateLimit config)) 1000))))).

End RateLimit.

(** ** Authentication context (Apollo [context] and [subscriptions.onConnect]) *)

Module Auth.

(** A context object.  [onConnect] builds [{ user }]: no [req], no
    [logger]. *)
Record Context (User : Type) := {
  user : option User;
  req : option Request;
  logger : bool
}.
Arguments user {User} _.
Arguments req {User} _.
Arguments logger {User} _.

(** Objects live in a heap and are passed by reference: a reference is
    the position of the object in the heap. *)
Definition Ref := nat.

(** The heap of context objects, and the credentials handed to
    [verifyToken] so far, oldest first. *)
Record State (User : Type) := {
  heap : list (Context User);
  verified : list string
}.
Arguments heap {User} _.
Arguments verified {User} _.

(** The argument of the [context] function: Apollo calls it with
    [{ req }] for an HTTP operation and with [{ connection }] for an
    operation on a subscription connection. *)
Record Connection := { context_of : Ref }.
Inductive ContextArg :=
| OfRequest (req : Request)
| OfConnection (connection : Connection).

Record ConnectionParams := { params_authorization : option string }.

Section Bridge.
Context {User : Type}.
(** [new AuthService().verifyToken]: what it answers for each credential. *)
Variable verifyToken : string -> Promise (option User).

(** Evaluating an object literal allocates a new object. *)
Definition alloc (c : Context User) (st : State User) : Ref * State User :=
  (length (heap st), {| heap := heap st ++ [c]; verified := verified st |}).

Definition noteVerify (token : string) (st : State User) : State User :=
  {| heap := heap st; verified := verified st ++ [token] |}.

(** [header?.replace('Bearer ', '')] *)
Definition tokenOf (header : option string) : option string :=
  option_map (replace "Bearer " "") header.

(** The [context] function of the Apollo server. *)
Definition context (arg : ContextArg) (st : State User)
    : Promise Ref * State User :=
  match arg with
  | OfConnection connection => (Resolved (context_of connection), st)
  | OfRequest req =>
      let token := tokenOf (authorization req) in
      if truthy token then
        let st := noteVerify (theString token) st in
        match verifyToken (theString token) with
        | Resolved user =>
            let '(r, st) := alloc {| user := user; req := Some req; logger := true |} st in
            (Resolved r, st)
        | Rejected e => (Rejected e, st)
        end
      else
        let '(r, st) := alloc {| user := None; req := Some req; logger := true |} st in
        (Resolved r, st)
  end.

(** [subscriptions.onConnect] *)
Definition onConnect (connectionParams : ConnectionParams) (st : State User)
    : Promise Ref * State User :=
  let token := tokenOf (params_authorization connectionParams) in
  if truthy token then
    let st := noteVerify (theString token) st in
    match verifyToken (theString token) with
    | Resolved user =>
        let '(r, st) := alloc {| user := user; req := None; logger := false |} st in
        (Resolved r, st)
    | Rejected e => (Rejected e, st)
    end
  else
    let '(r, st) := alloc {| user := None; req := None; logger := false |} st in
    (Resolved r, st).

(** The identity a call resolved: the [user] field of the object the
    returned reference points to. *)
Definition resolvedUser (r : Promise Ref * State User) : Promise (option (option User)) :=
  pmap (fun ref => user <$> heap (snd r) !! ref) (fst r).

(** *** Operations on a connection

    Which [connection] record reaches [context] for an operation message
    is the choice of the subscription transport, a dependency and not
    gateway code; it is not fixed here.  [AuthRun.run] below applies the
    gateway's functions to whatever records are handed over. *)

(** *** The procedure in the words of the specification

    No credential: the identity is absent.  A credential: the
    ['Bearer '] prefix is removed and verification is delegated to the
    authentication collaborator.  A credential of which nothing is left
    without the prefix counts as none. *)
Definition stripBearer (credential : string) : string :=
  if String.prefix "Bearer " credential
  then String.substring 7 (String.length credential - 7) credential
  else credential.

Definition specResolve (credential : option string) : Promise (option User) :=
  match credential with
  | None => Resolved None
  | Some c =>
      if truthy (Some (stripBearer c)) then verifyToken (stripBearer c)
      else Resolved None
  end.

End Bridge.

(** No credential is presented: the header is absent, or nothing is left
    of it once ['Bearer '] is taken out. *)
Definition missing (credential : option string) : Prop :=
  truthy (tokenOf credential) = false.

(** Verification of the credential does not produce an identity. *)
Definition fails {User : Type} (verifyToken : string -> Promise (option User))
    (credential : option string) : Prop :=
  forall identity, verifyToken (theString (tokenOf credential)) <> Resolved (Some identity).

(** Modelled from the spec: [AuthService.verifyToken]
    ([./src/services/AuthService] is not among the sources).  The
    collaborator is consumed as [verifyToken(credential) -> identity |
    absent]: it settles with an identity or with the absent identity and
    does not reject. *)
Definition softFail {User : Type} (verifyToken : string -> Promise (option User)) : Prop :=
  forall credential, exists identity, verifyToken credential = Resolved identity.

End Auth.

(** ** Process lifecycle: [startServer] and the SIGTERM handler *)

Module Lifecycle.

(** What the collaborators do in one run of the process. *)
Record World := {
  (** the error a call throws, or its promise rejects with; [None] when
      the call succeeds.  The value thrown has properties, as every value
      but [null] and [undefined] has: a rejection with [null] or
      [undefined], on which the [error.message] of the catch block would
      itself throw, is not among the worlds *)
  failure : Callee -> option Error;
  (** the answer to each probe of the port resolver *)
  probe_listen : Z -> PortResolver.ListenOutcome;
  (** the ['error'] event of the real listener, if one is emitted *)
  listen_error : Z -> option Error;
  (** whether the HTTP server's close callback ever runs: it does once
      every open connection has ended *)
  drained : bool
}.

(** Where [startServer] leaves the process when it returns. *)
Inductive Server :=
| Serving (PORT : Z).

Section Run.
Variable config : Config.
Variable world : World.

(** Log lines are kept without their leading pictograms. *)

(** A call of a collaborator: recorded, and thrown out of when the
    collaborator fails. *)
Definition call (c : Callee) : Proc unit :=
  run! emit (Call c);
  match failure world c with
  | Some e => throw e
  | None => ret tt
  end.

(** [httpServer.on('error', ...)] *)
Definition onListenError (PORT : Z) (error : Error) : Proc Server :=
  if bool_decide (code error = Some PortResolver.EADDRINUSE) then
    run! log ERROR ("Port " +:+ pretty PORT +:+
           " is already in use. Please stop the existing process or choose a different port.");
    run! log ERROR ("To find processes using the port, run: lsof -i :" +:+ pretty PORT);
    run! log ERROR "To kill the process, run: kill -9 <PID>";
    exit 1
  else
    run! log ERROR "Server error:";
    exit 1.

Definition startServer : Proc Server :=
  tryCatch
    (run! call initSocket;
     run! call setIO;
     run! call startAIWorker;
     run! call newAnalyticsBridge;
     run! call bridge_start;
     run! log INFO "Connecting to databases...";
     run! call connectNeo4j;
     run! call connectPostgres;
     run! call connectRedis;
     run! log INFO "All databases connected";
     run! call installMiddleware;
     run! call apolloServer_start;
     run! call apolloServer_applyMiddleware;
     run! emit (Call (findAvailablePort (Cfg.port config)));
     bind! PORT <- await (PortResolver.findAvailablePort config (probe_listen world)
                            (Cfg.port config));
     run! call (httpServer_listen PORT);
     match listen_error world PORT with
     | Some error => onListenError PORT error
     | None =>
         run! log INFO ("IntelGraph AI Server running on port " +:+ pretty PORT);
         run! log INFO ("GraphQL endpoint: http://localhost:" +:+ pretty PORT +:+ "/graphql");
         run! log INFO "WebSocket subscriptions enabled";
         run! log INFO ("Environment: " +:+ Cfg.env config);
         run! log INFO "AI features enabled";
         run! log INFO "Security features enabled";
         run! log INFO "Real-time updates enabled";
         ret (Serving PORT)
     end)
    (fun error =>
       run! log ERROR ("Failed to start server: " +:+ interpolate (message error));
       exit 1).

(** [process.on('unhandledRejection', ...)]: where the rejection of an
    async handler nobody awaits ends up. *)
Definition unhandledRejection {A : Type} (m : Proc A) : Proc A :=
  tryCatch m (fun reason =>
    run! log ERROR "Unhandled Rejection:";
    exit 1).

(** The body of the SIGTERM handler. *)
Definition sigtermHandler : Proc unit :=
  run! log INFO "SIGTERM received, shutting down gracefully";
  run! call apolloServer_stop;
  run! call closeConnections;
  run! emit (Call httpServer_close);
  if drained world then
    run! log INFO "Process terminated";
    exit 0
  else
    ret tt.

(** The handler as the process runs it on SIGTERM. *)
Definition onSIGTERM : Proc unit := unhandledRejection sigtermHandler.

End Run.

(** An event that binds a listening socket: the probes of the port
    resolver and the real listener. *)
Definition binds (e : Event) : bool :=
  match e with
  | Call (findAvailablePort _) | Call (httpServer_listen _) => true
  | _ => false
  end.

(** [e1] happens, and later [e2] happens. *)
Definition before (e1 e2 : Event) (t : list Event) : Prop :=
  exists i j : nat, t !! i = Some e1 /\ t !! j = Some e2 /\ (i < j)%nat.

End Lifecycle.

(** ** The last error-handling middleware *)

Module ErrorHandler.

(** [app.use((err, req, res, next) => ...)] *)
Definition errorHandler (config : Config) (err : Error) : Proc Reply :=
  run! log ERROR ("Unhandled error: " +:+ interpolate (message err));
  ret (Send 500 (Json "Internal Server Error"
                      (if Cfg.env config =? "development" then message err
                       else Some "Something went wrong")
                      None)).

End ErrorHandler.

(** ** Sample environments *)

Module Sample.

Definition config : Config := {|
  Cfg.env := "production";
  Cfg.port := 4000;
  Cfg.cors := {| Cfg.origin := inr ["https://app.example"] |};
  Cfg.rateLimit := {| Cfg.windowMs := 60000; Cfg.maxRequests := 1 |}
|}.

Definition inUse : Error := {| code := Some "EADDRINUSE"; message := Some "listen EADDRINUSE" |}.
Definition denied : Error := {| code := Some "EACCES"; message := Some "listen EACCES" |}.

(** Ports 4000 and 4001 are taken, every other port binds. *)
Definition listen (q : Z) : PortResolver.ListenOutcome :=
  if (q =? 4000)%Z || (q =? 4001)%Z
  then PortResolver.ListenError inUse
  else PortResolver.Listening q.

(** Every port is taken. *)
Definition crowded (q : Z) : PortResolver.ListenOutcome :=
  PortResolver.ListenError inUse.

(** Port 4000 is taken, binding port 4001 is not permitted. *)
Definition guarded (q : Z) : PortResolver.ListenOutcome :=
  if (q =? 4000)%Z then PortResolver.ListenError inUse
  else if (q =? 4001)%Z then PortResolver.ListenError denied
  else PortResolver.Listening q.

(** Neither production nor development. *)
Definition staging : Config := {|
  Cfg.env := "staging";
  Cfg.port := 4000;
  Cfg.cors := {| Cfg.origin := inr ["https://app.example"] |};
  Cfg.rateLimit := {| Cfg.windowMs := 60000; Cfg.maxRequests := 1 |}
|}.

Definition client : Request :=
  {| ip := "10.0.0.1"; path := "/api/graphrag"; authorization := None |}.

(** Two requests of one client, thirty seconds apart. *)
Definition first : RateLimit.Arrival :=
  {| RateLimit.now := 0; RateLimit.request := client; RateLimit.succeeded := true |}.
Definition second : RateLimit.Arrival :=
  {| RateLimit.now := 30000; RateLimit.request := client; RateLimit.succeeded := true |}.

(** A token verifier that knows one token. *)
Definition verifyToken (token : string) : Promise (option string) :=
  if token =? "t0k3n" then Resolved (Some "alice") else Resolved None.

Definition noContexts : Auth.State string := {| Auth.heap := []; Auth.verified := [] |}.

(** A run in which every collaborator succeeds and connections end. *)
Definition calm : Lifecycle.World := {|
  Lifecycle.failure := fun _ => None;
  Lifecycle.probe_listen := listen;
  Lifecycle.listen_error := fun _ => None;
  Lifecycle.drained := true
|}.

(** A run in which the relational store cannot be reached. *)
Definition postgresDown : Lifecycle.World := {|
  Lifecycle.failure := fun c =>
    match c with
    | connectPostgres => Some {| code := Some "ECONNREFUSED"; message := Some "connect ECONNREFUSED" |}
    | _ => None
    end;
  Lifecycle.probe_listen := listen;
  Lifecycle.listen_error := fun _ => None;
  Lifecycle.drained := true
|}.

End Sample.

(** ** The head of the request pipeline: origin check, general limiter,
       last error handler *)

Module Pipeline.
Import RateLimit.

(** [app.use(cors(corsOptions))], then [app.use(generalLimiter)], for a
    request that is not a preflight; [rest] is what the middlewares and
    routes further down answer.  The glue is Express's and the [cors]
    package's: when the origin callback is called with an error, [cors]
    passes it to [next], and an error passed to [next] skips every
    ordinary middleware and reaches the error-handling one, of which
    [server.js] registers a single one, the last. *)
Definition front (config : Config) (origin : option string) (a : Arrival)
    (store : gmap string Counter) (rest : Proc Reply)
    : Proc Reply * gmap string Counter :=
  let checked := Cors.corsOrigin config origin in
  match outcome checked with
  | Done (Cors.Refused err) =>
      (run! checked; ErrorHandler.errorHandler config err, store)
  | _ =>
      let '(limited, store') := middleware (generalLimiter config) a store in
      (run! checked;
       bind! reply <- limited;
       match reply with
       | Next => rest
       | Send _ _ => ret reply
       end,
       store')
  end.

End Pipeline.

(** ** Reading a run of the limiter *)

Module RateLimitView.
Import RateLimit.

(** The arrivals of client [key] that stay on its counter: those the rule
    does not skip and, when the rule forgets successful requests, those
    that did not succeed. *)
Definition charged (o : Options) (key : string) (arrivals : list Arrival) : nat :=
  length (filter (fun a => skipped o (request a) = false /\ ip (request a) = key /\
                           (skipSuccessfulRequests o = false \/ succeeded a = false))
                 arrivals).

(** The counter of client [key] stands at [n] or more, in a window that
    began at [t0] or later. *)
Definition atLeast (o : Options) (store : gmap string Counter) (key : string)
    (t0 : Z) (n : Z) : Prop :=
  match store !! key with
  | Some c => (resetTime c <= t0 /\ n = 0) \/ (t0 + windowMs o <= resetTime c /\ n <= totalHits c)
  | None => n = 0
  end.

(** The arrivals other than liveness checks. *)
Definition withoutHealth (arrivals : list Arrival) : list Arrival :=
  filter (fun a => path (request a) <> "/health") arrivals.

(** The replies given to the arrivals other than liveness checks. *)
Definition repliesWithoutHealth (arrivals : list Arrival) (replies : list (Proc Reply))
    : list (Proc Reply) :=
  (filter (fun ar => path (request ar.1) <> "/health") (zip arrivals replies)).*2.

End RateLimitView.

(** ** Real-time rooms ([io.on('connection', ...)]) *)

Module Realtime.

(** What happens on a socket: it connects, the client emits
    [join_investigation] or [leave_investigation] with an argument
    ([None] when the argument is left out), the socket disconnects. *)
Inductive SocketEvent :=
| connection
| join_investigation (investigationId : option string)
| leave_investigation (investigationId : option string)
| disconnect.

(** [`investigation_${investigationId}`] *)
Definition roomOf (investigationId : option string) : string :=
  "investigation_" +:+ interpolate investigationId.

(** Membership: the pairs of a socket id and a room the socket is in.
    [socket.join] adds a pair and [socket.leave] removes one; these are
    socket.io's, as are the room every socket is put in when it connects,
    named by its id, and the leaving of all rooms before the
    ['disconnect'] handlers run. *)
Definition handle (id : string) (e : SocketEvent) (members : gset (string * string))
    : Proc unit * gset (string * string) :=
  match e with
  | connection =>
      (log INFO ("Client connected: " +:+ id), {[ (id, id) ]} ∪ members)
  | join_investigation investigationId =>
      (log INFO ("Client " +:+ id +:+ " joined investigation " +:+ interpolate investigationId),
       {[ (id, roomOf investigationId) ]} ∪ members)
  | leave_investigation investigationId =>
      (log INFO ("Client " +:+ id +:+ " left investigation " +:+ interpolate investigationId),
       members ∖ {[ (id, roomOf investigationId) ]})
  | disconnect =>
      (log INFO ("Client disconnected: " +:+ id),
       filter (fun m => m.1 <> id) members)
  end.

(** Events of several sockets, in the order they are handled. *)
Fixpoint handleAll (events : list (string * SocketEvent)) (members : gset (string * string))
    : list (Proc unit) * gset (string * string) :=
  match events with
  | [] => ([], members)
  | (id, e) :: rest =>
      let '(r, members) := handle id e members in
      let '(rs, members) := handleAll rest members in
      (r :: rs, members)
  end.

(** What one event says about the membership of socket [id] in room
    [room], given what held before it. *)
Definition says (id room : string) (before : bool) (ev : string * SocketEvent) : bool :=
  if bool_decide (ev.1 = id) then
    match ev.2 with
    | connection => bool_decide (room = id) || before
    | join_investigation investigationId =>
        bool_decide (roomOf investigationId = room) || before
    | leave_investigation investigationId =>
        negb (bool_decide (roomOf investigationId = room)) && before
    | disconnect => false
    end
  else before.

(** Every room of a membership is a socket's own or an investigation's. *)
Definition wellNamed (members : gset (string * string)) : Prop :=
  forall id room, (id, room) ∈ members ->
    room = id \/ exists investigationId, room = roomOf investigationId.

End Realtime.

(** ** Runs of the authentication bridge *)

Module AuthRun.
Import Auth.

(** What Apollo asks of the bridge: the context of an HTTP operation, the
    handshake of a new connection, the context of an operation on a
    connection. *)
Inductive Call :=
| Query (req : Request)
| Handshake (connectionParams : ConnectionParams)
| Operation (connection : Connection).

(** The calls that build a context object. *)
Definition allocates (c : Call) : bool :=
  match c with
  | Operation _ => false
  | Query _ | Handshake _ => true
  end.

Section Run.
Context {User : Type}.
Variable verifyToken : string -> Promise (option User).

Definition step (c : Call) (st : State User) : Promise Ref * State User :=
  match c with
  | Query req => context verifyToken (OfRequest req) st
  | Handshake connectionParams => onConnect verifyToken connectionParams st
  | Operation connection => context verifyToken (OfConnection connection) st
  end.

(** The calls one after the other: what each settled with, and the state
    left behind. *)
Fixpoint run (calls : list Call) (st : State User) : list (Promise Ref) * State User :=
  match calls with
  | [] => ([], st)
  | c :: rest =>
      let '(r, st) := step c st in
      let '(rs, st) := run rest st in
      (r :: rs, st)
  end.

End Run.

(** [pat] occurs somewhere in [s]. *)
Fixpoint occurs (pat s : string) : bool :=
  String.prefix pat s ||
  match s with
  | "" => false
  | String _ s' => occurs pat s'
  end.

End AuthRun.

(** ** Reading a trace *)

Module Trace.

(** The ports the real listener was asked to listen on, in order. *)
Definition listens (t : list Event) : list Z :=
  omap (fun e => match e with Call (httpServer_listen PORT) => Some PORT | _ => None end) t.

(** The statuses the process was ended with, in order. *)
Definition exits (t : list Event) : list Z :=
  omap (fun e => match e with Exit status => Some status | _ => None end) t.

#[global] Instance level_eq_dec : EqDecision Level.
Proof. solve_decision. Defined.

(** The lines logged at a level, in order. *)
Definition logged (level : Level) (t : list Event) : list string :=
  omap (fun e => match e with
                 | Log l line => if bool_decide (l = level) then Some line else None
                 | _ => None
                 end) t.

End Trace.

(** ** Further sample environments *)

Module Scenario.

(** Every collaborator succeeds, every port but 4000 and 4001 can be
    probed, but the real listener is refused the port it is given. *)
Definition lateConflict : Lifecycle.World := {|
  Lifecycle.failure := fun _ => None;
  Lifecycle.probe_listen := Sample.listen;
  Lifecycle.listen_error := fun _ => Some Sample.inUse;
  Lifecycle.drained := true
|}.

(** Every collaborator succeeds but no port can be probed. *)
Definition noPort : Lifecycle.World := {|
  Lifecycle.failure := fun _ => None;
  Lifecycle.probe_listen := Sample.crowded;
  Lifecycle.listen_error := fun _ => None;
  Lifecycle.drained := true
|}.




(** A verifier whose check throws. *)
Definition brokenVerifier (token : string) : Promise (option string) :=
  Rejected (newError "jwt malformed").

Definition health : Request :=
  {| ip := "10.0.0.1"; path := "/health"; authorization := None |}.

Definition login : Request :=
  {| ip := "10.0.0.1"; path := "/api/auth/login"; authorization := None |}.

(** A liveness check between the two requests of [Sample]. *)
Definition probeAt (t : Z) : RateLimit.Arrival :=
  {| RateLimit.now := t; RateLimit.request := health; RateLimit.succeeded := true |}.

(** A login attempt at time [t] that fails or succeeds. *)
Definition attempt (t : Z) (ok : bool) : RateLimit.Arrival :=
  {| RateLimit.now := t; RateLimit.request := login; RateLimit.succeeded := ok |}.

(** The graph store cannot be reached. *)
Definition neo4jDown : Lifecycle.World := {|
  Lifecycle.failure := fun c =>
    match c with
    | connectNeo4j => Some {| code := Some "ECONNREFUSED"; message := Some "connect ECONNREFUSED" |}
    | _ => None
    end;
  Lifecycle.probe_listen := Sample.listen;
  Lifecycle.listen_error := fun _ => None;
  Lifecycle.drained := true
|}.

(** Every collaborator succeeds and every port can be bound. *)
Definition quiet : Lifecycle.World := {|
  Lifecycle.failure := fun _ => None;
  Lifecycle.probe_listen := fun q => PortResolver.Listening q;
  Lifecycle.listen_error := fun _ => None;
  Lifecycle.drained := true
|}.

(** Every collaborator succeeds but some connection stays open for good. *)
Definition lingering : Lifecycle.World := {|
  Lifecycle.failure := fun _ => None;
  Lifecycle.probe_listen := Sample.listen;
  Lifecycle.listen_error := fun _ => None;
  Lifecycle.drained := false
|}.

(** As [Sample.listen] from port 4000 on; below it nothing can be bound. *)
Definition listenHigh (q : Z) : PortResolver.ListenOutcome :=
  if (q <? 4000)%Z then PortResolver.ListenError Sample.denied else Sample.listen q.

End Scenario.

(** * Properties *)

(** ** JavaScript values *)

Module JsFacts.

(** [ceilDiv a b] is the least integer not below [a / b]. *)
Lemma ceilDiv_least (a b : Z) :
  0 < b -> a <= ceilDiv a b * b /\ (ceilDiv a b - 1) * b < a.
Proof.
  intros Hb. unfold ceilDiv.
  pose proof (Z.div_mod (- a) b) as Hdm.
  pose proof (Z.mod_pos_bound (- a) b Hb) as Hm.
  nia.
Qed.

Example ceilDiv_whole : ceilDiv 60000 1000 = 60.
Proof. reflexivity. Qed.

Example ceilDiv_up : ceilDiv 1500 1000 = 2.
Proof. reflexivity. Qed.

Example replace_first_only : replace "Bearer " "" "Bearer Bearer x" = "Bearer x".
Proof. reflexivity. Qed.

Example replace_inside : replace "Bearer " "" "xBearer y" = "xy".
Proof. reflexivity. Qed.

Example replace_none : replace "Bearer " "" "token" = "token".
Proof. reflexivity. Qed.

End JsFacts.

(** ** Port resolver *)

Module PortResolverFacts.
Import PortResolver.

Example resolve_skips_taken_ports :
  findAvailablePort Sample.config Sample.listen 4000 = Resolved 4002.
Proof. vm_compute. reflexivity. Qed.

Example resolve_exhausted :
  findAvailablePort Sample.config Sample.crowded 4990 =
  Rejected (newError "No available ports found in range 4000-5000").
Proof. vm_compute. reflexivity. Qed.

Example resolve_other_error :
  findAvailablePort Sample.config Sample.guarded 4000 = Rejected Sample.denied.
Proof. vm_compute. reflexivity. Qed.

Example resolve_conflict_above_bound :
  findAvailablePort Sample.config Sample.crowded 6000 =
  Rejected (newError "No available ports found in range 4000-5000").
Proof. vm_compute. reflexivity. Qed.

Section Facts.
Variable config : Config.
Variable listen : Z -> ListenOutcome.

(** The recursion equation of the source: the bound on the number of
    calls never cuts a run short. *)
Lemma findAvailablePort_unfold (startPort : Z) :
  findAvailablePort config listen startPort =
  match listen startPort with
  | Listening port => Resolved port
  | ListenError err =>
      if bool_decide (code err = Some EADDRINUSE) then
        if bool_decide (5000 <= startPort) then Rejected (exhausted config)
        else findAvailablePort config listen (startPort + 1)
      else Rejected err
  end.
Proof.
  unfold findAvailablePort.
  destruct (Z.to_nat (5000 - startPort)) as [|n] eqn:Hn; simpl.
  - destruct (listen startPort) as [port|err]; [done|].
    repeat case_bool_decide; try done. lia.
  - destruct (listen startPort) as [port|err]; [done|].
    repeat case_bool_decide; try done.
    replace (Z.to_nat (5000 - (startPort + 1))) with n by lia. done.
Qed.

Lemma free_Listening q : free listen q = true <-> exists r, listen q = Listening r.
Proof.
  unfold free. destruct (listen q); split; try done; eauto.
  intros [r ?]. done.
Qed.

Lemma conflict_not_free q : conflict listen q = true -> free listen q = false.
Proof. unfold conflict, free. by destruct (listen q). Qed.

Lemma conflict_step p :
  conflict listen p = true -> p < 5000 ->
  findAvailablePort config listen p = findAvailablePort config listen (p + 1).
Proof.
  intros Hc Hp. rewrite (findAvailablePort_unfold p).
  unfold conflict in Hc. destruct (listen p) as [|err]; [done|].
  rewrite Hc; clear Hc. case_bool_decide; [lia|done].
Qed.

Lemma conflict_at_bound p :
  conflict listen p = true -> 5000 <= p ->
  findAvailablePort config listen p = Rejected (exhausted config).
Proof.
  intros Hc Hp. rewrite (findAvailablePort_unfold p).
  unfold conflict in Hc. destruct (listen p) as [|err]; [done|].
  rewrite Hc; clear Hc. case_bool_decide; [done|lia].
Qed.

(** Climbing over a run of conflicting ports. *)
Lemma climb (n : nat) : forall p,
  p + Z.of_nat n <= 5000 ->
  (forall q, p <= q < p + Z.of_nat n -> conflict listen q = true) ->
  findAvailablePort config listen p = findAvailablePort config listen (p + Z.of_nat n).
Proof.
  induction n as [|n IH]; intros p Hb Hc.
  - by rewrite Z.add_0_r.
  - rewrite conflict_step; [|apply Hc; lia|lia].
    rewrite IH; [f_equal; lia|lia|].
    intros q Hq. apply Hc. lia.
Qed.

(** The smallest free port of a range that has one. *)
Lemma smallest_free (n : nat) : forall p q,
  Z.of_nat n = q - p -> p <= q -> free listen q = true ->
  exists m, p <= m <= q /\ free listen m = true /\
            forall q', p <= q' < m -> free listen q' = false.
Proof.
  induction n as [|n IH]; intros p q Hn Hpq Hq.
  - exists q. split; [lia|]. split; [done|]. intros; lia.
  - destruct (free listen p) eqn:Hp.
    + exists p. split; [lia|]. split; [done|]. intros; lia.
    + destruct (IH (p + 1) q) as (m & Hm & Hfm & Hlt); [lia|lia|done|].
      exists m. split; [lia|]. split; [done|].
      intros q' Hq'. destruct (decide (q' = p)) as [->|]; [done|].
      apply Hlt. lia.
Qed.

End Facts.

(** C1. Starting at a port [p] not above the bound 5000, and with a
    system that binds the very port it is asked for: when every port of
    [p..5000] is either free or taken and one of them is free, the
    resolver returns the smallest free port from [p] on; when none is
    free it fails with the range-exhausted error; a bind conflict below
    the bound hands over to the next integer port; any other bind error
    is the resolver's own failure, at once. *)
Theorem findAvailablePort_spec (config : Config) (listen : Z -> ListenOutcome) (p : Z) :
  p <= 5000 ->
  (forall q r, p <= q <= 5000 -> listen q = Listening r -> r = q) ->
  ((forall q, p <= q <= 5000 -> free listen q = true \/ conflict listen q = true) ->
   ((exists q, p <= q <= 5000 /\ free listen q = true) ->
    exists m, findAvailablePort config listen p = Resolved m /\
              p <= m <= 5000 /\ free listen m = true /\
              forall q', p <= q' < m -> free listen q' = false) /\
   ((forall q, p <= q <= 5000 -> free listen q = false) ->
    findAvailablePort config listen p = Rejected (exhausted config))) /\
  (conflict listen p = true -> p < 5000 ->
   findAvailablePort config listen p = findAvailablePort config listen (p + 1)) /\
  (forall err, listen p = ListenError err -> code err <> Some EADDRINUSE ->
   findAvailablePort config listen p = Rejected err).
Proof.
  intros Hp Hexact. split; [|split].
  - intros Hfc.
    assert (Hconf : forall q, p <= q <= 5000 -> free listen q = false ->
                              conflict listen q = true).
    { intros q Hq Hf. destruct (Hfc q Hq) as [Hf'|]; [congruence|done]. }
    split.
    + intros (q & Hq & Hfree).
      destruct (smallest_free listen (Z.to_nat (q - p)) p q) as (m & Hm & Hfm & Hlt);
        [lia|lia|done|].
      exists m. split; [|split; [lia|by split]].
      rewrite (climb config listen (Z.to_nat (m - p)) p); [|lia|].
      * replace (p + Z.of_nat (Z.to_nat (m - p))) with m by lia.
        rewrite findAvailablePort_unfold.
        apply free_Listening in Hfm as [r Hr]. rewrite Hr.
        f_equal. apply (Hexact m r); [lia|done].
      * intros q' Hq'. apply Hconf; [lia|]. apply Hlt. lia.
    + intros Hnone.
      rewrite (climb config listen (Z.to_nat (5000 - p)) p); [|lia|].
      * replace (p + Z.of_nat (Z.to_nat (5000 - p))) with 5000 by lia.
        apply conflict_at_bound; [|lia]. apply Hconf; [lia|]. apply Hnone. lia.
      * intros q' Hq'. apply Hconf; [lia|]. apply Hnone. lia.
  - apply conflict_step.
  - intros err Herr Hcode. rewrite findAvailablePort_unfold, Herr.
    case_bool_decide; done.
Qed.

Lemma sample_listen_exact q r :
  Sample.listen q = Listening r -> r = q.
Proof.
  unfold Sample.listen. destruct (_ || _); [done|]. by intros [= ->].
Qed.

Lemma sample_listen_free_or_conflict q :
  free Sample.listen q = true \/ conflict Sample.listen q = true.
Proof.
  unfold free, conflict, Sample.listen. destruct (_ || _); [right|left]; done.
Qed.

(** With ports 4000 and 4001 taken, a start at 4000 yields a free port
    with nothing free below it. *)
Lemma findAvailablePort_spec_witness :
  exists m, findAvailablePort Sample.config Sample.listen 4000 = Resolved m /\
            4000 <= m <= 5000 /\ free Sample.listen m = true /\
            forall q', 4000 <= q' < m -> free Sample.listen q' = false.
Proof.
  destruct (findAvailablePort_spec Sample.config Sample.listen 4000) as [H _].
  - lia.
  - intros q r _. apply sample_listen_exact.
  - apply H.
    + intros q _. apply sample_listen_free_or_conflict.
    + exists 4002. split; [lia|reflexivity].
Defined.

Lemma probe_config_irrelevant (config config' : Config) (listen : Z -> ListenOutcome)
    (n : nat) : forall p,
  portOf (probe config listen n p) = portOf (probe config' listen n p).
Proof.
  induction n as [|n IH]; intros p; simpl;
    destruct (listen p) as [port|err]; try done;
    repeat case_bool_decide; done.
Qed.

(** C10. The bound 5000 is looked at only once a bind conflict has
    happened: a start above 5000 whose probe binds is returned as it is.
    The bound is a constant of the resolver: whatever the configuration,
    the same environment leads to the same port or to a failure. *)
Theorem findAvailablePort_above_bound (config : Config) (listen : Z -> ListenOutcome) (p : Z) :
  5000 < p ->
  listen p = Listening p ->
  findAvailablePort config listen p = Resolved p /\
  forall (config' : Config) (p' : Z),
    portOf (findAvailablePort config' listen p') = portOf (findAvailablePort config listen p').
Proof.
  intros Hp Hl. split.
  - rewrite findAvailablePort_unfold, Hl. done.
  - intros config' p'. apply probe_config_irrelevant.
Qed.

Lemma findAvailablePort_above_bound_witness :
  findAvailablePort Sample.config Sample.listen 6000 = Resolved 6000 /\
  forall (config' : Config) (p' : Z),
    portOf (findAvailablePort config' Sample.listen p') =
    portOf (findAvailablePort Sample.config Sample.listen p').
Proof.
  apply (findAvailablePort_above_bound Sample.config Sample.listen 6000).
  - lia.
  - reflexivity.
Defined.

End PortResolverFacts.

(** ** Origin validation *)

Module CorsFacts.
Import Cors.

Lemma listed_test (config : Config) (origin : option string) :
  negb (truthy origin) || includes (allowedOrigins config) origin = true
  <-> listed config origin.
Proof.
  unfold listed, includes. rewrite orb_true_iff, negb_true_iff.
  split; intros [H|H]; auto.
  - destruct origin as [o|]; [|done]. right. exists o.
    by apply bool_decide_eq_true in H.
  - right. destruct H as (o & -> & H). by apply bool_decide_eq_true.
Qed.

(** In a staging environment, which is not production, an origin outside
    the allow-list is refused. *)
Lemma corsOrigin_staging_refused :
  isProduction Sample.staging = false /\
  corsOrigin Sample.staging (Some "http://any.example") =
    ([Log WARN "CORS blocked origin: http://any.example"],
     Done (Refused (newError "Not allowed by CORS"))).
Proof. split; reflexivity. Qed.

(** C2, as the code has it. In the development environment every origin
    is accepted.  In every other environment, production or not, the
    accepted requests are exactly those without an origin (header absent
    or empty) and those whose origin is in the configured allow-list;
    every other request is refused with the error "Not allowed by CORS"
    after one warning line that names the origin. *)
Theorem corsOrigin_spec (config : Config) (origin : option string) :
  (isDevelopment config = true -> corsOrigin config origin = ret Allowed) /\
  (isDevelopment config = false ->
     (listed config origin -> corsOrigin config origin = ret Allowed) /\
     (~ listed config origin -> corsOrigin config origin = refusal origin) /\
     (outcome (corsOrigin config origin) = Done Allowed <-> listed config origin)).
Proof.
  unfold corsOrigin. split; intros Hdev; rewrite Hdev; [done|].
  pose proof (listed_test config origin) as Ht.
  destruct (negb (truthy origin) || _) eqn:Hb.
  - assert (listed config origin) by (by apply Ht).
    split; [done|]. split; [done|]. by split.
  - assert (~ listed config origin) by (intros ?%Ht; done).
    split; [done|]. split; [done|]. split; [done|]. done.
Qed.

Lemma corsOrigin_spec_witness :
  corsOrigin Sample.config (Some "https://app.example") = ret Allowed /\
  corsOrigin Sample.config None = ret Allowed /\
  corsOrigin Sample.config (Some "http://any.example") = refusal (Some "http://any.example").
Proof.
  destruct (corsOrigin_spec Sample.config (Some "https://app.example")) as [_ H1].
  destruct (corsOrigin_spec Sample.config None) as [_ H2].
  destruct (corsOrigin_spec Sample.config (Some "http://any.example")) as [_ H3].
  destruct (H1 eq_refl) as [A1 _]. destruct (H2 eq_refl) as [A2 _].
  destruct (H3 eq_refl) as [_ [A3 _]].
  split; [|split].
  - apply A1. right. exists "https://app.example". split; [done|]. vm_compute. apply list_elem_of_here.
  - apply A2. by left.
  - apply A3. intros [H|(o & [= <-] & H)]; [done|].
    vm_compute in H. apply list_elem_of_singleton in H. done.
Defined.

End CorsFacts.

(** ** Rate limiting *)

Module RateLimitFacts.
Import RateLimit.

Section Counting.
Variable o : Options.
Variable key : string.
Variable t0 : Z.
Hypothesis all_count : skipSuccessfulRequests o = false.

Lemma counted_cons (a : Arrival) (l : list Arrival) :
  counted o key (a :: l) =
  ((if decide (skipped o (request a) = false /\ ip (request a) = key) then 1 else 0)
   + counted o key l)%nat.
Proof.
  unfold counted. rewrite filter_cons. by destruct (decide _).
Qed.

(** One arrival: the counter follows, and a counted request of the
    client is answered by its rank in the window. *)
Lemma middleware_step (a : Arrival) (store : gmap string Counter) (n : nat) :
  t0 <= now a < t0 + windowMs o ->
  tracks o store key t0 n ->
  tracks o (snd (middleware o a store)) key t0 (counted o key [a] + n) /\
  (ip (request a) = key ->
   fst (middleware o a store) =
     if skipped o (request a) then ret Next
     else if bool_decide (max o < Z.of_nat (S n)) then onLimit o (request a)
     else ret Next).
Proof.
  intros Ht Htr. rewrite counted_cons. unfold counted; simpl.
  unfold middleware. rewrite all_count. simpl.
  destruct (skipped o (request a)) eqn:Hs.
  { simpl. split; done. }
  case_decide as Hk; [destruct Hk as [_ Hk]|].
  - assert (Hc : totalHits (increment o (now a) key store) = Z.of_nat (S n) /\
                 t0 + windowMs o <= resetTime (increment o (now a) key store)).
    { unfold increment. destruct n as [|n]; simpl in Htr.
      - unfold noOpenWindow in Htr. destruct (store !! key) as [c|]; simpl.
        + case_bool_decide; simpl; [lia|]. split; [done|lia].
        + split; [done|lia].
      - destruct Htr as (c & -> & Hh & Hr). case_bool_decide; simpl; lia. }
    rewrite Hk. destruct Hc as [Hh Hr]. rewrite Hh.
    split.
    + assert (Hin : tracks o (<[key := increment o (now a) key store]> store) key t0 (1 + n)).
      { simpl. eexists. rewrite lookup_insert_eq. split; [done|]. split; [|done].
        rewrite Hh. lia. }
      by case_bool_decide.
    + intros _. by case_bool_decide.
  - assert (Hne : ip (request a) <> key) by (intros ?; apply Hk; done).
    split; [|done]. simpl.
    assert (Hkeep : forall c, tracks o (<[ip (request a) := c]> store) key t0 n).
    { intros c. destruct n as [|n]; simpl in *.
      - unfold noOpenWindow in *. by rewrite lookup_insert_ne.
      - destruct Htr as (c' & ? & ?). exists c'. by rewrite lookup_insert_ne. }
    case_bool_decide; apply Hkeep.
Qed.

(** A run of arrivals inside the window. *)
Lemma serve_tracks (arrivals : list Arrival) : forall (store : gmap string Counter) (n : nat),
  Forall (fun a => t0 <= now a < t0 + windowMs o) arrivals ->
  tracks o store key t0 n ->
  Z.of_nat (counted o key arrivals + n) <= max o ->
  tracks o (snd (serve o arrivals store)) key t0 (counted o key arrivals + n) /\
  Forall2 (fun a r => ip (request a) = key -> r = ret Next)
          arrivals (fst (serve o arrivals store)).
Proof.
  induction arrivals as [|a rest IH]; intros store n Hw Htr Hmax.
  - simpl. split; [done|constructor].
  - apply Forall_cons in Hw as [Ha Hrest].
    destruct (middleware_step a store n Ha Htr) as [Htr' Hreply].
    rewrite counted_cons in Hmax. simpl.
    destruct (middleware o a store) as [r store'] eqn:Hm. simpl in *.
    assert (Hc1 : counted o key [a] =
                  if decide (skipped o (request a) = false /\ ip (request a) = key)
                  then 1%nat else 0%nat).
    { rewrite counted_cons. unfold counted. simpl. lia. }
    destruct (IH store' (counted o key [a] + n)%nat Hrest Htr') as [Hfin Hreps].
    { rewrite Hc1. lia. }
    destruct (serve o rest store') as [rs store''] eqn:Hs. simpl in *.
    split.
    + rewrite counted_cons. rewrite Hc1 in Hfin.
      replace ((if decide (skipped o (request a) = false ∧ ip (request a) = key)
                then 1 else 0) + counted o key rest + n)%nat
        with (counted o key rest +
              ((if decide (skipped o (request a) = false ∧ ip (request a) = key)
                then 1 else 0) + n))%nat by lia.
      done.
    + constructor; [|done]. intros Hk. rewrite (Hreply Hk).
      destruct (skipped o (request a)) eqn:Hsk; [done|].
      case_bool_decide as Hlt; [|done].
      case_decide as Hno; [lia|]. exfalso. apply Hno. done.
Qed.

End Counting.

(** Thirty seconds into a one-minute window with ceiling 1, the second
    request of a client is rejected with a retry-after of 60 seconds, where
    30 seconds of the window remain. *)
Lemma retryAfter_is_not_the_remaining_time :
  let o := generalLimiter Sample.config in
  let s1 := snd (middleware o Sample.first ∅) in
  let r2 := fst (middleware o Sample.second s1) in
  let s2 := snd (middleware o Sample.second s1) in
  exists c body,
    s2 !! "10.0.0.1" = Some c /\
    totalHits c = max o + 1 /\
    now Sample.second < resetTime c /\
    outcome r2 = Done (Send 429 body) /\
    retryAfterOf body = Some 60 /\
    remainingSeconds c (now Sample.second) = 30 /\
    retryAfterOf body <> Some (remainingSeconds c (now Sample.second)).
Proof.
  simpl. eexists _, _. split; [vm_compute; reflexivity|].
  repeat split; try reflexivity. vm_compute. discriminate.
Qed.

Lemma generalLimiter_onLimit (config : Config) (req : Request) :
  onLimit (generalLimiter config) req = tooMany config req.
Proof. reflexivity. Qed.

(** The rejection of the authentication rule carries its whole window,
    fifteen minutes, as well. *)
Lemma authLimiter_onLimit (config : Config) (req : Request) :
  onLimit (authLimiter config) req =
  ret (Send 429 (Json "Too many authentication attempts" None (Some 900))).
Proof. reflexivity. Qed.

(** C3, as the code has it. Under the general rule, once a client has
    made as many counted requests (any path but the liveness path) as the
    ceiling inside one window, each of them handed on, the client's next
    request in that window is rejected with status 429, after a warning
    line with its address and path, and the retry-after value of the reply
    is the length of the whole window in seconds, rounded up, however much
    of the window remains. *)
Theorem generalLimiter_ceiling (config : Config) (pre : list Arrival) (last : Arrival)
    (t0 : Z) (store : gmap string Counter) :
  Forall (fun a => t0 <= now a < t0 + windowMs (generalLimiter config)) (pre ++ [last]) ->
  noOpenWindow store (ip (request last)) t0 ->
  path (request last) <> "/health" ->
  Z.of_nat (counted (generalLimiter config) (ip (request last)) pre)
    = max (generalLimiter config) ->
  (exists body,
     fst (middleware (generalLimiter config) last
            (snd (serve (generalLimiter config) pre store)))
       = ([Log WARN ("Rate limit exceeded for IP: " +:+ ip (request last) +:+
                     " on " +:+ path (request last))],
          Done (Send 429 body)) /\
     retryAfterOf body = Some (ceilDiv (windowMs (generalLimiter config)) 1000)) /\
  Forall2 (fun a r => ip (request a) = ip (request last) -> r = ret Next)
          pre (fst (serve (generalLimiter config) pre store)).
Proof.
  intros Hw Hopen Hpath Hcount.
  apply Forall_app in Hw as [Hpre Hlast]. rewrite Forall_singleton in Hlast.
  destruct (serve_tracks (generalLimiter config) (ip (request last)) t0 eq_refl
              pre store 0%nat Hpre Hopen) as [Htr Hreps]; [lia|].
  split; [|done].
  exists (Json "Rate limit exceeded" (Some "Too many requests from this IP address")
            (Some (ceilDiv (Cfg.windowMs (Cfg.rateLimit config)) 1000))).
  split; [|reflexivity].
  destruct (middleware_step (generalLimiter config) (ip (request last)) t0 eq_refl
              last _ _ Hlast Htr) as [_ Hreply].
  rewrite (Hreply eq_refl).
  assert (Hsk : skipped (generalLimiter config) (request last) = false).
  { simpl. by apply String.eqb_neq. }
  rewrite Hsk. case_bool_decide as Hlt; [apply generalLimiter_onLimit|lia].
Qed.

Lemma generalLimiter_ceiling_witness :
  (exists body,
     fst (middleware (generalLimiter Sample.config) Sample.second
            (snd (serve (generalLimiter Sample.config) [Sample.first] ∅)))
       = ([Log WARN "Rate limit exceeded for IP: 10.0.0.1 on /api/graphrag"],
          Done (Send 429 body)) /\
     retryAfterOf body = Some 60) /\
  fst (serve (generalLimiter Sample.config) [Sample.first] ∅) = [ret Next].
Proof.
  destruct (generalLimiter_ceiling Sample.config [Sample.first] Sample.second 0 ∅)
    as (H1 & H2).
  - repeat constructor; simpl; lia.
  - exact I.
  - discriminate.
  - reflexivity.
  - split; [exact H1|]. vm_compute. reflexivity.
Defined.

End RateLimitFacts.

(** ** Authentication context *)

Module AuthFacts.
Import Auth.

Lemma substring_whole (s : string) : String.substring 0 (String.length s) s = s.
Proof. induction s as [|c s IH]; simpl; [done|by rewrite IH]. Qed.

Lemma replace_unfold (pat rep s : string) :
  replace pat rep s =
  if String.prefix pat s
  then rep +:+ String.substring (String.length pat) (String.length s - String.length pat) s
  else match s with
       | "" => ""
       | String c s' => String c (replace pat rep s')
       end.
Proof. by destruct s. Qed.

Lemma app_empty (t : string) : "" +:+ t = t.
Proof. reflexivity. Qed.

Lemma app_String (c : Ascii.ascii) (s t : string) : String c s +:+ t = String c (s +:+ t).
Proof. reflexivity. Qed.

Lemma prefix_app (pat t : string) : String.prefix pat (pat +:+ t) = true.
Proof.
  induction pat as [|c pat IH].
  - by destruct t.
  - rewrite app_String. simpl. by destruct (Ascii.ascii_dec c c).
Qed.

Lemma substring_after (pat t : string) :
  String.substring (String.length pat) (String.length (pat +:+ t) - String.length pat)
                   (pat +:+ t) = t.
Proof.
  induction pat as [|c pat IH].
  - rewrite app_empty. simpl. rewrite Nat.sub_0_r. apply substring_whole.
  - rewrite app_String. simpl. apply IH.
Qed.

(** On a string that begins with the pattern, [replace] removes that
    prefix. *)
Lemma replace_prefix (pat t : string) : replace pat "" (pat +:+ t) = t.
Proof. by rewrite replace_unfold, prefix_app, substring_after, app_empty. Qed.

Lemma replace_Bearer (t : string) : replace "Bearer " "" ("Bearer " +:+ t) = t.
Proof. apply replace_prefix. Qed.

Lemma stripBearer_Bearer (t : string) : stripBearer ("Bearer " +:+ t) = t.
Proof.
  unfold stripBearer. rewrite (prefix_app "Bearer " t).
  apply (substring_after "Bearer " t).
Qed.

Section Bridge.
Context {User : Type}.
Variable verifyToken : string -> Promise (option User).

Lemma alloc_lookup (c : Context User) (st : State User) :
  heap (snd (alloc c st)) !! fst (alloc c st) = Some c.
Proof. simpl. by apply list_lookup_middle. Qed.

(** What either transport resolves, as a function of the header alone. *)
Lemma context_resolves (req : Request) (st : State User) :
  resolvedUser (context verifyToken (OfRequest req) st) =
  if truthy (tokenOf (authorization req))
  then pmap Some (verifyToken (theString (tokenOf (authorization req))))
  else Resolved (Some None).
Proof.
  unfold context, resolvedUser. destruct (truthy _).
  - destruct (verifyToken _) as [u|e]; simpl; [|done].
    unfold pmap; simpl. by rewrite list_lookup_middle.
  - unfold pmap; simpl. by rewrite list_lookup_middle.
Qed.

Lemma onConnect_resolves (connectionParams : ConnectionParams) (st : State User) :
  resolvedUser (onConnect verifyToken connectionParams st) =
  if truthy (tokenOf (params_authorization connectionParams))
  then pmap Some (verifyToken (theString (tokenOf (params_authorization connectionParams))))
  else Resolved (Some None).
Proof.
  unfold onConnect, resolvedUser. destruct (truthy _).
  - destruct (verifyToken _) as [u|e]; simpl; [|done].
    unfold pmap; simpl. by rewrite list_lookup_middle.
  - unfold pmap; simpl. by rewrite list_lookup_middle.
Qed.

Lemma context_verified (req : Request) (st : State User) :
  verified (snd (context verifyToken (OfRequest req) st)) =
  if truthy (tokenOf (authorization req))
  then (verified st ++ [theString (tokenOf (authorization req))])%list
  else verified st.
Proof.
  unfold context. destruct (truthy _); [|done].
  by destruct (verifyToken _).
Qed.

Lemma onConnect_verified (connectionParams : ConnectionParams) (st : State User) :
  verified (snd (onConnect verifyToken connectionParams st)) =
  if truthy (tokenOf (params_authorization connectionParams))
  then (verified st ++ [theString (tokenOf (params_authorization connectionParams))])%list
  else verified st.
Proof.
  unfold onConnect. destruct (truthy _); [|done].
  by destruct (verifyToken _).
Qed.

(** No containment in the gateway itself: a verifier that rejects makes
    the context function reject. *)
Lemma context_rejects (req : Request) (st : State User) (e : Error) :
  truthy (tokenOf (authorization req)) = true ->
  verifyToken (theString (tokenOf (authorization req))) = Rejected e ->
  fst (context verifyToken (OfRequest req) st) = Rejected e.
Proof. intros Ht Hv. unfold context. by rewrite Ht, Hv. Qed.

End Bridge.

(** C5. For every credential, absent or not, the HTTP [context] function
    and the [onConnect] handshake resolve the same identity and call the
    verifier with the same token.  With no header the identity is absent
    and the verifier is not called; a header ["Bearer t"] is reduced to
    [t], handed to [verifyToken], and the answer is the identity: the
    procedure of the specification. *)
Theorem transports_resolve_alike {User : Type}
    (verifyToken : string -> Promise (option User))
    (credential : option string) (address route : string) (st : State User) :
  let viaRequest :=
    context verifyToken
      (OfRequest {| ip := address; path := route; authorization := credential |}) st in
  let viaConnect :=
    onConnect verifyToken {| params_authorization := credential |} st in
  resolvedUser viaRequest = resolvedUser viaConnect /\
  verified (snd viaRequest) = verified (snd viaConnect) /\
  (credential = None ->
     resolvedUser viaConnect = Resolved (Some None) /\ verified (snd viaConnect) = verified st) /\
  (forall t, credential = Some ("Bearer " +:+ t) ->
     resolvedUser viaConnect = pmap Some (specResolve verifyToken credential)).
Proof.
  intros viaRequest viaConnect. unfold viaRequest, viaConnect.
  rewrite context_resolves, onConnect_resolves, context_verified, onConnect_verified.
  simpl. split; [done|]. split; [done|]. split.
  - intros ->. done.
  - intros t ->. unfold tokenOf, specResolve. cbn [option_map theString].
    rewrite replace_Bearer, stripBearer_Bearer.
    destruct (truthy (Some t)); done.
Qed.

Lemma transports_resolve_alike_witness :
  resolvedUser (onConnect Sample.verifyToken
                  {| params_authorization := Some "Bearer t0k3n" |} Sample.noContexts)
  = Resolved (Some (Some "alice")) /\
  resolvedUser (context Sample.verifyToken
                  (OfRequest {| ip := "10.0.0.1"; path := "/graphql";
                                authorization := Some "Bearer t0k3n" |}) Sample.noContexts)
  = Resolved (Some (Some "alice")).
Proof.
  destruct (transports_resolve_alike Sample.verifyToken (Some "Bearer t0k3n")
              "10.0.0.1" "/graphql" Sample.noContexts) as (H1 & _ & _ & H2).
  specialize (H2 "t0k3n" eq_refl). rewrite H1. split; exact H2.
Defined.

(** C6. With the verifier of the specification, which answers with an
    identity or with the absent identity and does not reject: when no
    credential is presented, or when verification of the credential does
    not produce an identity, both the HTTP [context] function and the
    [onConnect] handshake settle with a context object (no rejection)
    whose user is absent. *)
Theorem absent_identity_is_not_an_error {User : Type}
    (verifyToken : string -> Promise (option User))
    (credential : option string) (address route : string) (st : State User) :
  softFail verifyToken ->
  missing credential \/ fails verifyToken credential ->
  (exists ref st' c,
     context verifyToken
       (OfRequest {| ip := address; path := route; authorization := credential |}) st
       = (Resolved ref, st') /\
     heap st' !! ref = Some c /\ user c = None) /\
  (exists ref st' c,
     onConnect verifyToken {| params_authorization := credential |} st
       = (Resolved ref, st') /\
     heap st' !! ref = Some c /\ user c = None).
Proof.
  intros Hsoft Hcase.
  assert (Hv : truthy (tokenOf credential) = true ->
               verifyToken (theString (tokenOf credential)) = Resolved None).
  { intros Ht. destruct Hcase as [Hm|Hf]; [unfold missing in Hm; congruence|].
    destruct (Hsoft (theString (tokenOf credential))) as [[u|] Hu]; [|done].
    by destruct (Hf u). }
  unfold context, onConnect. cbn [authorization params_authorization].
  destruct (truthy (tokenOf credential)).
  - rewrite (Hv eq_refl). split; eexists _, _, _; (split; [reflexivity|]);
      (split; [apply list_lookup_middle; reflexivity|reflexivity]).
  - split; eexists _, _, _; (split; [reflexivity|]);
      (split; [apply list_lookup_middle; reflexivity|reflexivity]).
Qed.

Lemma sample_verifyToken_softFail : softFail Sample.verifyToken.
Proof.
  intros credential. unfold Sample.verifyToken.
  destruct (credential =? "t0k3n"); eauto.
Qed.

Lemma absent_identity_is_not_an_error_witness :
  (exists ref st' c,
     context Sample.verifyToken
       (OfRequest {| ip := "10.0.0.1"; path := "/graphql";
                     authorization := Some "Bearer expired" |}) Sample.noContexts
       = (Resolved ref, st') /\
     heap st' !! ref = Some c /\ user c = None) /\
  (exists ref st' c,
     onConnect Sample.verifyToken {| params_authorization := Some "Bearer expired" |}
       Sample.noContexts
       = (Resolved ref, st') /\
     heap st' !! ref = Some c /\ user c = None).
Proof.
  apply (absent_identity_is_not_an_error Sample.verifyToken (Some "Bearer expired")
           "10.0.0.1" "/graphql" Sample.noContexts).
  - exact sample_verifyToken_softFail.
  - right. intros identity. vm_compute. discriminate.
Defined.

End AuthFacts.

(** ** Process lifecycle *)

Module LifecycleFacts.
Import Lifecycle.

(** Case analysis on the next collaborator call of the goal. *)
Ltac next_call world :=
  match goal with
  | |- context [failure world ?c] =>
      let E := fresh "E" in destruct (failure world c) eqn:E; simpl
  end.

(** The trace of a SIGTERM in a run where everything succeeds. *)
Lemma calm_sigterm_trace :
  trace (onSIGTERM Sample.calm) =
  [Log INFO "SIGTERM received, shutting down gracefully";
   Call apolloServer_stop; Call closeConnections; Call httpServer_close;
   Log INFO "Process terminated"; Exit 0].
Proof. reflexivity. Qed.

(** In a run where everything succeeds, the dependency connections are
    released before the HTTP server is closed, not after: the order stop
    serving, drain, release does not hold. *)
Lemma release_precedes_listener_close :
  outcome (onSIGTERM Sample.calm) = Exited 0 /\
  before (Call closeConnections) (Call httpServer_close) (trace (onSIGTERM Sample.calm)) /\
  ~ before (Call httpServer_close) (Call closeConnections) (trace (onSIGTERM Sample.calm)).
Proof.
  split; [reflexivity|]. split.
  - exists 2%nat, 3%nat. repeat split; lia.
  - rewrite calm_sigterm_trace. intros (i & j & Hi & Hj & Hlt).
    assert (i = 3%nat) as ->.
    { do 6 (destruct i as [|i]; [simpl in Hi; try discriminate Hi; try reflexivity|]).
      discriminate Hi. }
    assert (j = 2%nat) as ->.
    { do 6 (destruct j as [|j]; [simpl in Hj; try discriminate Hj; try reflexivity|]).
      discriminate Hj. }
    lia.
Qed.

(** C4, as the code has it. On SIGTERM the handler stops the GraphQL
    server, then releases the dependency connections, then closes the HTTP
    server; the process exits with status 0 exactly when the first two
    succeed and the close callback of the HTTP server runs (its open
    connections have ended), and then the steps were taken in that order,
    the exit last. *)
Theorem sigterm_shutdown (world : World) :
  (outcome (onSIGTERM world) = Exited 0 <->
     failure world apolloServer_stop = None /\
     failure world closeConnections = None /\
     drained world = true) /\
  (outcome (onSIGTERM world) = Exited 0 ->
     trace (onSIGTERM world) =
       [Log INFO "SIGTERM received, shutting down gracefully";
        Call apolloServer_stop; Call closeConnections; Call httpServer_close;
        Log INFO "Process terminated"; Exit 0]) /\
  (forall e, failure world apolloServer_stop = Some e \/
             (failure world apolloServer_stop = None /\ failure world closeConnections = Some e) ->
     outcome (onSIGTERM world) = Exited 1 /\
     Call httpServer_close ∉ trace (onSIGTERM world)).
Proof.
  unfold onSIGTERM, unhandledRejection, sigtermHandler, call.
  destruct (failure world apolloServer_stop) as [e1|] eqn:E1; simpl.
  { split; [split; [done|by intros (? & _)]|]. split; [done|].
    intros e _. split; [done|]. intros H.
    repeat (apply elem_of_cons in H as [H|H]; [discriminate H|]).
    by apply elem_of_nil in H. }
  destruct (failure world closeConnections) as [e2|] eqn:E2; simpl.
  { split; [split; [done|by intros (_ & ? & _)]|]. split; [done|].
    intros e _. split; [done|]. intros H.
    repeat (apply elem_of_cons in H as [H|H]; [discriminate H|]).
    by apply elem_of_nil in H. }
  destruct (drained world) eqn:E3; simpl.
  - split; [done|]. split; [done|]. intros e [?|[_ ?]]; done.
  - split; [split; [done|by intros (_ & _ & ?)]|]. split; [done|].
    intros e [?|[_ ?]]; done.
Qed.

Lemma sigterm_shutdown_witness :
  trace (onSIGTERM Sample.calm) =
    [Log INFO "SIGTERM received, shutting down gracefully";
     Call apolloServer_stop; Call closeConnections; Call httpServer_close;
     Log INFO "Process terminated"; Exit 0].
Proof.
  destruct (sigterm_shutdown Sample.calm) as (H1 & H2 & _).
  apply H2. apply H1. repeat split.
Defined.

(** A call fails and [startServer] ends in its catch block, or the call
    succeeds and the run goes on. *)
Ltac fails_or_goes_on world c :=
  let e := fresh "e" in
  let E := fresh "E" in
  destruct (failure world c) as [e|] eqn:E; simpl.

Lemma startServer_dependency_failure (config : Config) (world : World) :
  failure world connectNeo4j <> None \/
  failure world connectPostgres <> None \/
  failure world connectRedis <> None ->
  outcome (startServer config world) = Exited 1 /\
  Forall (fun ev => binds ev = false) (trace (startServer config world)).
Proof.
  intros H. unfold startServer, call.
  fails_or_goes_on world initSocket; [split; [reflexivity|repeat constructor]|].
  fails_or_goes_on world setIO; [split; [reflexivity|repeat constructor]|].
  fails_or_goes_on world startAIWorker; [split; [reflexivity|repeat constructor]|].
  fails_or_goes_on world newAnalyticsBridge; [split; [reflexivity|repeat constructor]|].
  fails_or_goes_on world bridge_start; [split; [reflexivity|repeat constructor]|].
  destruct (failure world connectNeo4j) as [e1|] eqn:Hneo4j;
    [simpl; split; [reflexivity|repeat constructor]|].
  destruct (failure world connectPostgres) as [e2|] eqn:Hpostgres;
    [simpl; split; [reflexivity|repeat constructor]|].
  destruct (failure world connectRedis) as [e3|] eqn:Hredis;
    [simpl; split; [reflexivity|repeat constructor]|].
  exfalso. destruct H as [H|[H|H]]; by apply H.
Qed.

Lemma startServer_serving (config : Config) (world : World) (PORT : Z) :
  outcome (startServer config world) = Done (Serving PORT) ->
  trace (startServer config world) =
    [Call initSocket; Call setIO; Call startAIWorker; Call newAnalyticsBridge;
     Call bridge_start; Log INFO "Connecting to databases...";
     Call connectNeo4j; Call connectPostgres; Call connectRedis;
     Log INFO "All databases connected";
     Call installMiddleware; Call apolloServer_start; Call apolloServer_applyMiddleware;
     Call (findAvailablePort (Cfg.port config)); Call (httpServer_listen PORT);
     Log INFO ("IntelGraph AI Server running on port " +:+ pretty PORT);
     Log INFO ("GraphQL endpoint: http://localhost:" +:+ pretty PORT +:+ "/graphql");
     Log INFO "WebSocket subscriptions enabled";
     Log INFO ("Environment: " +:+ Cfg.env config);
     Log INFO "AI features enabled";
     Log INFO "Security features enabled";
     Log INFO "Real-time updates enabled"].
Proof.
  unfold startServer, call.
  remember (PortResolver.findAvailablePort config (probe_listen world) (Cfg.port config))
    as found eqn:Hfound.
  fails_or_goes_on world initSocket; [discriminate|].
  fails_or_goes_on world setIO; [discriminate|].
  fails_or_goes_on world startAIWorker; [discriminate|].
  fails_or_goes_on world newAnalyticsBridge; [discriminate|].
  fails_or_goes_on world bridge_start; [discriminate|].
  fails_or_goes_on world connectNeo4j; [discriminate|].
  fails_or_goes_on world connectPostgres; [discriminate|].
  fails_or_goes_on world connectRedis; [discriminate|].
  fails_or_goes_on world installMiddleware; [discriminate|].
  fails_or_goes_on world apolloServer_start; [discriminate|].
  fails_or_goes_on world apolloServer_applyMiddleware; [discriminate|].
  destruct found as [P|e]; simpl; [|discriminate].
  fails_or_goes_on world (httpServer_listen P); [discriminate|].
  destruct (listen_error world P) as [e|]; simpl.
  - unfold onListenError. case_bool_decide; simpl; discriminate.
  - intros [= ->]. reflexivity.
Qed.

(** C8. When the connection to the graph store, the relational store or
    the cache fails at startup, [startServer] ends the process with status
    1 and nothing on the way has bound a listener: neither a probe of the
    port resolver nor the HTTP server.  When [startServer] does get to
    serve, all three connections had succeeded, and each was made before
    the HTTP server began to listen. *)
Theorem dependencies_before_serving (config : Config) (world : World) :
  (failure world connectNeo4j <> None \/
   failure world connectPostgres <> None \/
   failure world connectRedis <> None ->
   outcome (startServer config world) = Exited 1 /\
   Forall (fun ev => binds ev = false) (trace (startServer config world))) /\
  (forall ev, ev ∈ trace (startServer config world) -> binds ev = true ->
   failure world connectNeo4j = None /\
   failure world connectPostgres = None /\
   failure world connectRedis = None) /\
  (forall PORT, outcome (startServer config world) = Done (Serving PORT) ->
   before (Call connectNeo4j) (Call (httpServer_listen PORT)) (trace (startServer config world)) /\
   before (Call connectPostgres) (Call (httpServer_listen PORT)) (trace (startServer config world)) /\
   before (Call connectRedis) (Call (httpServer_listen PORT)) (trace (startServer config world))).
Proof.
  split; [apply startServer_dependency_failure|]. split.
  - intros ev Hev Hb.
    destruct (failure world connectNeo4j) as [e1|] eqn:E1;
      [|destruct (failure world connectPostgres) as [e2|] eqn:E2;
        [|destruct (failure world connectRedis) as [e3|] eqn:E3; [|done]]];
      exfalso;
      (destruct (startServer_dependency_failure config world) as [_ Hall];
       [rewrite ?E1, ?E2, ?E3; auto|]);
      rewrite Forall_forall in Hall; specialize (Hall ev Hev); congruence.
  - intros PORT Hs. rewrite (startServer_serving config world PORT Hs).
    split; [|split].
    + exists 6%nat, 14%nat. repeat split; lia.
    + exists 7%nat, 14%nat. repeat split; lia.
    + exists 8%nat, 14%nat. repeat split; lia.
Qed.

Lemma dependencies_before_serving_witness :
  outcome (startServer Sample.config Sample.postgresDown) = Exited 1 /\
  Forall (fun ev => binds ev = false) (trace (startServer Sample.config Sample.postgresDown)).
Proof.
  destruct (dependencies_before_serving Sample.config Sample.postgresDown) as [H _].
  apply H. right. left. discriminate.
Defined.

End LifecycleFacts.

(** ** The last error-handling middleware *)

Module ErrorHandlerFacts.
Import ErrorHandler.

(** C9. Whatever error reaches the last middleware, the handler writes
    one error line to the log and answers with status 500 and a JSON body;
    it returns, and no exit of the process is among its effects.  In the
    development environment the message of the body is the message of the
    error; in every other environment it is the fixed text, and the reply
    is the same for any two errors. *)
Theorem errorHandler_spec (config : Config) (err : Error) :
  (exists text,
     errorHandler config err =
       ([Log ERROR ("Unhandled error: " +:+ interpolate (message err))],
        Done (Send 500 (Json "Internal Server Error" text None))) /\
     (Cfg.env config = "development" -> text = message err) /\
     (Cfg.env config <> "development" -> text = Some "Something went wrong")) /\
  (forall status, Exit status ∉ trace (errorHandler config err)) /\
  (Cfg.env config <> "development" ->
   forall err', outcome (errorHandler config err) = outcome (errorHandler config err')).
Proof.
  unfold errorHandler. simpl. split; [|split].
  - eexists. split; [reflexivity|]. split.
    + intros ->. reflexivity.
    + intros Hne. apply String.eqb_neq in Hne. by rewrite Hne.
  - intros status H. apply list_elem_of_singleton in H. discriminate.
  - intros Hne err'. apply String.eqb_neq in Hne. by rewrite Hne.
Qed.

Lemma errorHandler_spec_witness :
  outcome (errorHandler Sample.config Sample.denied) =
  outcome (errorHandler Sample.config Sample.inUse).
Proof.
  destruct (errorHandler_spec Sample.config Sample.denied) as (_ & _ & H).
  apply H. discriminate.
Defined.

End ErrorHandlerFacts.

(** ** Port resolver: what a result tells *)

Module PortResolverMore.
Import PortResolver PortResolverFacts.

(** Induction along the climb of the resolver: at or above the bound
    there is no further call, below it the next port is the only one. *)
Lemma climb_ind (P : Z -> Prop) :
  (forall p, 5000 <= p -> P p) ->
  (forall p, p < 5000 -> P (p + 1) -> P p) ->
  forall p, P p.
Proof.
  intros Htop Hstep p.
  remember (Z.to_nat (5000 - p)) as n eqn:Hn. revert p Hn.
  induction n as [|n IH]; intros p Hn.
  - apply Htop. lia.
  - apply Hstep; [lia|]. apply IH. lia.
Qed.

Section Results.
Variable config : Config.
Variable listen : Z -> ListenOutcome.

(** How a resolved promise came about. *)
Lemma resolved_inv (p m : Z) :
  findAvailablePort config listen p = Resolved m ->
  listen p = Listening m \/
  (conflict listen p = true /\ p < 5000 /\
   findAvailablePort config listen (p + 1) = Resolved m).
Proof.
  rewrite findAvailablePort_unfold. unfold conflict.
  destruct (listen p) as [r|err]; [intros [= ->]; by left|].
  case_bool_decide as Hc; [|done]. case_bool_decide as Hb; [done|].
  intros Hnext. right. split; [done|]. split; [lia|done].
Qed.

(** How a rejected promise came about. *)
Lemma rejected_inv (p : Z) (err : Error) :
  findAvailablePort config listen p = Rejected err ->
  (listen p = ListenError err /\ code err <> Some EADDRINUSE) \/
  (conflict listen p = true /\ 5000 <= p /\ err = exhausted config) \/
  (conflict listen p = true /\ p < 5000 /\
   findAvailablePort config listen (p + 1) = Rejected err).
Proof.
  rewrite findAvailablePort_unfold. unfold conflict.
  destruct (listen p) as [r|e]; [done|].
  case_bool_decide as Hc; [|intros [= ->]; by left].
  case_bool_decide as Hb.
  - intros [= <-]. right. left. done.
  - intros Hnext. right. right. split; [done|]. split; [lia|done].
Qed.

End Results.

(** X1. A port the resolver returns can be trusted: with a system that
    binds the port it is asked for, the returned port is not below the
    start, is not above 5000 when the start was not, did bind, and every
    port from the start up to it was in conflict. *)
Theorem resolved_port_is_first_free (config : Config) (listen : Z -> ListenOutcome)
    (p m : Z) :
  (forall q r, p <= q -> listen q = Listening r -> r = q) ->
  findAvailablePort config listen p = Resolved m ->
  p <= m /\ (p <= 5000 -> m <= 5000) /\ free listen m = true /\
  (forall q, p <= q < m -> conflict listen q = true).
Proof.
  revert m. pattern p. apply climb_ind; clear p.
  - intros p Hp m Hexact Hres.
    destruct (resolved_inv config listen p m Hres) as [Hl|(_ & Hlt & _)]; [|lia].
    assert (m = p) as -> by (apply (Hexact p m); [lia|done]).
    split; [lia|]. split; [lia|]. split; [|intros; lia].
    unfold free. by rewrite Hl.
  - intros p Hp IH m Hexact Hres.
    destruct (resolved_inv config listen p m Hres) as [Hl|(Hc & _ & Hnext)].
    + assert (m = p) as -> by (apply (Hexact p m); [lia|done]).
      split; [lia|]. split; [lia|]. split; [|intros; lia].
      unfold free. by rewrite Hl.
    + destruct (IH m) as (H1 & H2 & H3 & H4); [|done|].
      { intros q r Hq. apply Hexact. lia. }
      split; [lia|]. split; [intros; apply H2; lia|]. split; [done|].
      intros q Hq. destruct (decide (q = p)) as [->|]; [done|]. apply H4. lia.
Qed.

Lemma resolved_port_is_first_free_witness :
  4000 <= 4002 /\ (4000 <= 5000 -> 4002 <= 5000) /\ free Sample.listen 4002 = true /\
  (forall q, 4000 <= q < 4002 -> conflict Sample.listen q = true).
Proof.
  apply (resolved_port_is_first_free Sample.config Sample.listen 4000 4002).
  - intros q r _. apply sample_listen_exact.
  - vm_compute. reflexivity.
Defined.

(** X2. A failure of the resolver is one of two things. Either it is the
    range-exhausted error, and then every port from the start up to 5000
    (the start alone, when it lies above 5000) was in conflict; or it is
    the error of a probe, not a conflict, at a port reached over
    conflicts only.  The resolver never fails with a bind conflict
    itself. *)
Theorem rejection_is_exhaustion_or_bind_error (config : Config)
    (listen : Z -> ListenOutcome) (p : Z) (err : Error) :
  findAvailablePort config listen p = Rejected err ->
  code err <> Some EADDRINUSE /\
  ((err = exhausted config /\ conflict listen p = true /\
    forall q, p <= q <= 5000 -> conflict listen q = true) \/
   (exists q, p <= q /\ (p <= 5000 -> q <= 5000) /\
              listen q = ListenError err /\
              forall q', p <= q' < q -> conflict listen q' = true)).
Proof.
  pattern p. apply climb_ind; clear p.
  - intros p Hp Hrej.
    destruct (rejected_inv config listen p err Hrej)
      as [[Hl Hc]|[(Hc & _ & ->)|(_ & Hlt & _)]]; [| |lia].
    + split; [done|]. right. exists p. split; [lia|]. split; [lia|].
      split; [done|]. intros; lia.
    + split; [done|]. left. split; [done|]. split; [done|].
      intros q Hq. by replace q with p by lia.
  - intros p Hp IH Hrej.
    destruct (rejected_inv config listen p err Hrej)
      as [[Hl Hc]|[(_ & Hge & _)|(Hc & _ & Hnext)]]; [|lia|].
    + split; [done|]. right. exists p. split; [lia|]. split; [lia|].
      split; [done|]. intros; lia.
    + destruct (IH Hnext) as [Hcode [(-> & Hc1 & Hall)|(q & Hq & Hqb & Hl & Hbelow)]].
      * split; [done|]. left. split; [done|]. split; [done|].
        intros q Hq. destruct (decide (q = p)) as [->|]; [done|]. apply Hall. lia.
      * split; [done|]. right. exists q. split; [lia|]. split; [intros; apply Hqb; lia|].
        split; [done|].
        intros q' Hq'. destruct (decide (q' = p)) as [->|]; [done|]. apply Hbelow. lia.
Qed.

Lemma rejection_is_exhaustion_or_bind_error_witness :
  code Sample.denied <> Some EADDRINUSE /\
  ((Sample.denied = exhausted Sample.config /\ conflict Sample.guarded 4000 = true /\
    forall q, 4000 <= q <= 5000 -> conflict Sample.guarded q = true) \/
   (exists q, 4000 <= q /\ (4000 <= 5000 -> q <= 5000) /\
              Sample.guarded q = ListenError Sample.denied /\
              forall q', 4000 <= q' < q -> conflict Sample.guarded q' = true)).
Proof.
  apply (rejection_is_exhaustion_or_bind_error Sample.config Sample.guarded 4000).
  vm_compute. reflexivity.
Defined.

(** X3. The result is stable under a later start: with a system that
    binds the port it is asked for, when a start at [p] resolves to [m],
    so does a start at any port from [p] to [m], [m] itself included. *)
Theorem resolved_port_is_stable (config : Config) (listen : Z -> ListenOutcome)
    (p m q : Z) :
  (forall q r, p <= q -> listen q = Listening r -> r = q) ->
  findAvailablePort config listen p = Resolved m ->
  p <= q <= m ->
  findAvailablePort config listen q = Resolved m.
Proof.
  revert m q. pattern p. apply climb_ind; clear p.
  - intros p Hp m q Hexact Hres Hq.
    destruct (resolved_inv config listen p m Hres) as [Hl|(_ & Hlt & _)]; [|lia].
    assert (m = p) as -> by (apply (Hexact p m); [lia|done]).
    by replace q with p by lia.
  - intros p Hp IH m q Hexact Hres Hq.
    destruct (resolved_inv config listen p m Hres) as [Hl|(Hc & _ & Hnext)].
    + assert (m = p) as -> by (apply (Hexact p m); [lia|done]).
      by replace q with p by lia.
    + destruct (decide (q = p)) as [->|]; [done|].
      apply (IH m q); [|done|lia].
      intros q' r Hq'. apply Hexact. lia.
Qed.

Lemma resolved_port_is_stable_witness :
  findAvailablePort Sample.config Sample.listen 4001 = Resolved 4002.
Proof.
  apply (resolved_port_is_stable Sample.config Sample.listen 4000 4002 4001).
  - intros q r _. apply sample_listen_exact.
  - vm_compute. reflexivity.
  - lia.
Defined.

(** X4. The resolver looks at no port below its start and, started at or
    below 5000, at none above 5000: two systems that answer alike on the
    ports from the start to 5000 (on the start alone, when it lies above
    5000) lead to the same result. *)
Theorem resolver_reads_only_its_range (config : Config)
    (listen listen' : Z -> ListenOutcome) (p : Z) :
  (forall q, p <= q <= Z.max p 5000 -> listen q = listen' q) ->
  findAvailablePort config listen p = findAvailablePort config listen' p.
Proof.
  pattern p. apply climb_ind; clear p.
  - intros p Hp Hsame.
    rewrite (findAvailablePort_unfold config listen p),
            (findAvailablePort_unfold config listen' p), <- (Hsame p) by lia.
    destruct (listen p) as [r|err]; [done|].
    case_bool_decide; [|done]. case_bool_decide; [done|lia].
  - intros p Hp IH Hsame.
    rewrite (findAvailablePort_unfold config listen p),
            (findAvailablePort_unfold config listen' p), <- (Hsame p) by lia.
    destruct (listen p) as [r|err]; [done|].
    case_bool_decide; [|done]. case_bool_decide; [done|].
    apply IH. intros q Hq. apply Hsame. lia.
Qed.

Lemma resolver_reads_only_its_range_witness :
  findAvailablePort Sample.config Sample.listen 4000 =
  findAvailablePort Sample.config Scenario.listenHigh 4000.
Proof.
  apply (resolver_reads_only_its_range Sample.config Sample.listen Scenario.listenHigh 4000).
  intros q Hq. unfold Scenario.listenHigh.
  destruct (q <? 4000)%Z eqn:Hlt; [|reflexivity].
  apply Z.ltb_lt in Hlt. lia.
Defined.

End PortResolverMore.

(** ** Process lifecycle: how a start ends *)

Module LifecycleMore.
Import Lifecycle LifecycleFacts Trace.

(** A start in which the step before the resolver fails ends in the catch
    block. *)
Ltac caught := simpl; repeat split; try reflexivity; try discriminate.

(** X5. As long as no collaborator throws or rejects with [null] or
    [undefined] (values the worlds leave out, and on which the catch
    block's own [error.message] would throw), [startServer] does not
    throw and does not end the process with status 0: whatever else the
    collaborators do, either it returns with the server listening and no
    exit, or the process has been ended exactly once, with status 1, as
    the last thing that happened. *)
Theorem startServer_serves_or_exits_1 (config : Config) (world : World) :
  (exists PORT, outcome (startServer config world) = Done (Serving PORT) /\
                exits (trace (startServer config world)) = []) \/
  (outcome (startServer config world) = Exited 1 /\
   exits (trace (startServer config world)) = [1] /\
   last (trace (startServer config world)) = Some (Exit 1)).
Proof.
  unfold startServer, call.
  remember (PortResolver.findAvailablePort config (probe_listen world) (Cfg.port config))
    as found eqn:Hfound.
  fails_or_goes_on world initSocket; [right; caught|].
  fails_or_goes_on world setIO; [right; caught|].
  fails_or_goes_on world startAIWorker; [right; caught|].
  fails_or_goes_on world newAnalyticsBridge; [right; caught|].
  fails_or_goes_on world bridge_start; [right; caught|].
  fails_or_goes_on world connectNeo4j; [right; caught|].
  fails_or_goes_on world connectPostgres; [right; caught|].
  fails_or_goes_on world connectRedis; [right; caught|].
  fails_or_goes_on world installMiddleware; [right; caught|].
  fails_or_goes_on world apolloServer_start; [right; caught|].
  fails_or_goes_on world apolloServer_applyMiddleware; [right; caught|].
  destruct found as [P|e]; simpl; [|right; caught].
  fails_or_goes_on world (httpServer_listen P); [right; caught|].
  destruct (listen_error world P) as [e|]; simpl.
  - unfold onListenError. case_bool_decide; right; caught.
  - left. exists P. caught.
Qed.

(** X6. When the port resolver fails, with whatever error, the process is
    ended with status 1 and the real listener is never asked to listen. *)
Theorem resolver_failure_is_fatal (config : Config) (world : World) (err : Error) :
  PortResolver.findAvailablePort config (probe_listen world) (Cfg.port config)
    = Rejected err ->
  outcome (startServer config world) = Exited 1 /\
  listens (trace (startServer config world)) = [].
Proof.
  intros Hrej. unfold startServer, call. rewrite Hrej.
  fails_or_goes_on world initSocket; [caught|].
  fails_or_goes_on world setIO; [caught|].
  fails_or_goes_on world startAIWorker; [caught|].
  fails_or_goes_on world newAnalyticsBridge; [caught|].
  fails_or_goes_on world bridge_start; [caught|].
  fails_or_goes_on world connectNeo4j; [caught|].
  fails_or_goes_on world connectPostgres; [caught|].
  fails_or_goes_on world connectRedis; [caught|].
  fails_or_goes_on world installMiddleware; [caught|].
  fails_or_goes_on world apolloServer_start; [caught|].
  fails_or_goes_on world apolloServer_applyMiddleware; caught.
Qed.

Lemma resolver_failure_is_fatal_witness :
  outcome (startServer Sample.config Scenario.noPort) = Exited 1 /\
  listens (trace (startServer Sample.config Scenario.noPort)) = [].
Proof.
  apply (resolver_failure_is_fatal Sample.config Scenario.noPort
           (PortResolver.exhausted Sample.config)).
  vm_compute. reflexivity.
Defined.

(** X7. When [startServer] returns with the server listening on a port,
    that port is the one the resolver returned for the configured port,
    the real listener was asked exactly once, for that port, and it
    raised no error. *)
Theorem served_port_is_the_resolved_port (config : Config) (world : World) (PORT : Z) :
  outcome (startServer config world) = Done (Serving PORT) ->
  PortResolver.findAvailablePort config (probe_listen world) (Cfg.port config)
    = Resolved PORT /\
  listen_error world PORT = None /\
  listens (trace (startServer config world)) = [PORT].
Proof.
  intros Hs. split; [|split].
  - revert Hs. unfold startServer, call.
    fails_or_goes_on world initSocket; [discriminate|].
    fails_or_goes_on world setIO; [discriminate|].
    fails_or_goes_on world startAIWorker; [discriminate|].
    fails_or_goes_on world newAnalyticsBridge; [discriminate|].
    fails_or_goes_on world bridge_start; [discriminate|].
    fails_or_goes_on world connectNeo4j; [discriminate|].
    fails_or_goes_on world connectPostgres; [discriminate|].
    fails_or_goes_on world connectRedis; [discriminate|].
    fails_or_goes_on world installMiddleware; [discriminate|].
    fails_or_goes_on world apolloServer_start; [discriminate|].
    fails_or_goes_on world apolloServer_applyMiddleware; [discriminate|].
    destruct (PortResolver.findAvailablePort _ _ _) as [P|e]; simpl; [|discriminate].
    fails_or_goes_on world (httpServer_listen P); [discriminate|].
    destruct (listen_error world P) as [e|]; simpl.
    + unfold onListenError. case_bool_decide; simpl; discriminate.
    + by intros [= ->].
  - revert Hs. unfold startServer, call.
    fails_or_goes_on world initSocket; [discriminate|].
    fails_or_goes_on world setIO; [discriminate|].
    fails_or_goes_on world startAIWorker; [discriminate|].
    fails_or_goes_on world newAnalyticsBridge; [discriminate|].
    fails_or_goes_on world bridge_start; [discriminate|].
    fails_or_goes_on world connectNeo4j; [discriminate|].
    fails_or_goes_on world connectPostgres; [discriminate|].
    fails_or_goes_on world connectRedis; [discriminate|].
    fails_or_goes_on world installMiddleware; [discriminate|].
    fails_or_goes_on world apolloServer_start; [discriminate|].
    fails_or_goes_on world apolloServer_applyMiddleware; [discriminate|].
    destruct (PortResolver.findAvailablePort _ _ _) as [P|e]; simpl; [|discriminate].
    fails_or_goes_on world (httpServer_listen P); [discriminate|].
    destruct (listen_error world P) as [e|] eqn:Hle; simpl.
    + unfold onListenError. case_bool_decide; simpl; discriminate.
    + by intros [= <-].
  - rewrite (startServer_serving config world PORT Hs). reflexivity.
Qed.

Lemma served_port_is_the_resolved_port_witness :
  PortResolver.findAvailablePort Sample.config (probe_listen Sample.calm)
    (Cfg.port Sample.config) = Resolved 4002 /\
  listen_error Sample.calm 4002 = None /\
  listens (trace (startServer Sample.config Sample.calm)) = [4002].
Proof.
  apply (served_port_is_the_resolved_port Sample.config Sample.calm 4002).
  vm_compute. reflexivity.
Defined.

(** X8. A refusal of the real listener is never answered by another
    attempt: when every startup step succeeds, the resolver returns a
    port and the listener then raises an error on it, the listener was
    asked once, for that port, and the process is ended with status 1;
    a bind conflict is reported in three error lines that name the port,
    any other error in one. *)
Theorem listener_error_is_fatal (config : Config) (world : World) (P : Z) (e : Error) :
  (forall c, failure world c = None) ->
  PortResolver.findAvailablePort config (probe_listen world) (Cfg.port config)
    = Resolved P ->
  listen_error world P = Some e ->
  outcome (startServer config world) = Exited 1 /\
  listens (trace (startServer config world)) = [P] /\
  logged ERROR (trace (startServer config world)) =
    if bool_decide (code e = Some PortResolver.EADDRINUSE) then
      ["Port " +:+ pretty P +:+
         " is already in use. Please stop the existing process or choose a different port.";
       "To find processes using the port, run: lsof -i :" +:+ pretty P;
       "To kill the process, run: kill -9 <PID>"]
    else ["Server error:"].
Proof.
  intros Hok Hres Hle. unfold startServer, call.
  rewrite !Hok, Hres. simpl. rewrite Hok, Hle. simpl.
  unfold onListenError. case_bool_decide; simpl; done.
Qed.

Lemma listener_error_is_fatal_witness :
  outcome (startServer Sample.config Scenario.lateConflict) = Exited 1 /\
  listens (trace (startServer Sample.config Scenario.lateConflict)) = [4002] /\
  logged ERROR (trace (startServer Sample.config Scenario.lateConflict)) =
    ["Port 4002 is already in use. Please stop the existing process or choose a different port.";
     "To find processes using the port, run: lsof -i :4002";
     "To kill the process, run: kill -9 <PID>"].
Proof.
  apply (listener_error_is_fatal Sample.config Scenario.lateConflict 4002 Sample.inUse).
  - reflexivity.
  - vm_compute. reflexivity.
  - reflexivity.
Defined.

(** X9. The SIGTERM handler has no deadline: when the GraphQL server has
    stopped and the dependencies are released but a connection of the
    HTTP server never ends, the handler returns without an exit; the
    process stays alive, its dependency connections closed. *)
Theorem sigterm_waits_for_connections (world : World) :
  failure world apolloServer_stop = None ->
  failure world closeConnections = None ->
  drained world = false ->
  outcome (onSIGTERM world) = Done tt /\
  exits (trace (onSIGTERM world)) = [] /\
  trace (onSIGTERM world) =
    [Log INFO "SIGTERM received, shutting down gracefully";
     Call apolloServer_stop; Call closeConnections; Call httpServer_close].
Proof.
  intros H1 H2 H3. unfold onSIGTERM, unhandledRejection, sigtermHandler, call.
  rewrite H1, H2, H3. simpl. done.
Qed.

Lemma sigterm_waits_for_connections_witness :
  outcome (onSIGTERM Scenario.lingering) = Done tt /\
  exits (trace (onSIGTERM Scenario.lingering)) = [] /\
  trace (onSIGTERM Scenario.lingering) =
    [Log INFO "SIGTERM received, shutting down gracefully";
     Call apolloServer_stop; Call closeConnections; Call httpServer_close].
Proof.
  apply (sigterm_waits_for_connections Scenario.lingering); reflexivity.
Defined.

(** The trace at hand does not hold the event. *)
Ltac absent H :=
  exfalso; repeat (apply elem_of_cons in H as [H|H]; [discriminate H|]);
  by apply elem_of_nil in H.

(** The worker and the bridge were started before the graph store. *)
Ltac started_before :=
  split; [exists 2%nat, 6%nat|exists 4%nat, 6%nat];
  (split; [reflexivity|split; [reflexivity|lia]]).

(** X21. Background work does not wait for the dependencies: in every
    start that gets as far as connecting to the graph store, the AI
    worker and the analytics bridge have been started before, whether the
    connections then succeed or the process is ended. *)
Theorem workers_start_before_dependencies (config : Config) (world : World) :
  Call connectNeo4j ∈ trace (startServer config world) ->
  before (Call startAIWorker) (Call connectNeo4j) (trace (startServer config world)) /\
  before (Call bridge_start) (Call connectNeo4j) (trace (startServer config world)).
Proof.
  unfold startServer, call.
  remember (PortResolver.findAvailablePort config (probe_listen world) (Cfg.port config))
    as found eqn:Hfound.
  fails_or_goes_on world initSocket; [intros H; absent H|].
  fails_or_goes_on world setIO; [intros H; absent H|].
  fails_or_goes_on world startAIWorker; [intros H; absent H|].
  fails_or_goes_on world newAnalyticsBridge; [intros H; absent H|].
  fails_or_goes_on world bridge_start; [intros H; absent H|].
  fails_or_goes_on world connectNeo4j; [intros _; started_before|].
  fails_or_goes_on world connectPostgres; [intros _; started_before|].
  fails_or_goes_on world connectRedis; [intros _; started_before|].
  fails_or_goes_on world installMiddleware; [intros _; started_before|].
  fails_or_goes_on world apolloServer_start; [intros _; started_before|].
  fails_or_goes_on world apolloServer_applyMiddleware; [intros _; started_before|].
  destruct found as [P|e]; simpl; [|intros _; started_before].
  fails_or_goes_on world (httpServer_listen P); [intros _; started_before|].
  destruct (listen_error world P) as [e|]; simpl.
  - unfold onListenError. case_bool_decide; simpl; intros _; started_before.
  - intros _; started_before.
Qed.

Lemma workers_start_before_dependencies_witness :
  before (Call startAIWorker) (Call connectNeo4j)
    (trace (startServer Sample.config Scenario.neo4jDown)) /\
  before (Call bridge_start) (Call connectNeo4j)
    (trace (startServer Sample.config Scenario.neo4jDown)).
Proof.
  apply (workers_start_before_dependencies Sample.config Scenario.neo4jDown).
  vm_compute. do 6 apply list_elem_of_further. apply list_elem_of_here.
Defined.

(** X22. When every startup step succeeds, the configured port can be
    bound by the probe and the real listener raises no error on it, the
    server listens on the configured port itself, whether or not that
    port lies above 5000. *)
Theorem free_configured_port_is_served (config : Config) (world : World) :
  (forall c, failure world c = None) ->
  probe_listen world (Cfg.port config) = PortResolver.Listening (Cfg.port config) ->
  listen_error world (Cfg.port config) = None ->
  outcome (startServer config world) = Done (Serving (Cfg.port config)) /\
  listens (trace (startServer config world)) = [Cfg.port config].
Proof.
  intros Hok Hfree Hquiet. unfold startServer, call.
  rewrite !Hok, PortResolverFacts.findAvailablePort_unfold, Hfree. simpl.
  rewrite Hok, Hquiet. simpl. done.
Qed.

Lemma free_configured_port_is_served_witness :
  outcome (startServer Sample.config Scenario.quiet) = Done (Serving 4000) /\
  listens (trace (startServer Sample.config Scenario.quiet)) = [4000].
Proof.
  apply (free_configured_port_is_served Sample.config Scenario.quiet); reflexivity.
Defined.

End LifecycleMore.

(** ** The head of the request pipeline *)

Module PipelineFacts.
Import RateLimit Pipeline.

(** X10. Outside development, a request whose origin the allow-list
    does not let through is answered by the last error handler: status
    500 with the fixed message, not a 4xx, after the warning of the origin
    check and the error line of the handler.  Nothing further down runs,
    and the request is not counted by the general limiter. *)
Theorem refused_origin_is_answered_500 (config : Config) (origin : option string)
    (a : Arrival) (store : gmap string Counter) (rest : Proc Reply) :
  isDevelopment config = false ->
  ~ Cors.listed config origin ->
  front config origin a store rest =
    (([Log WARN ("CORS blocked origin: " +:+ interpolate origin);
       Log ERROR "Unhandled error: Not allowed by CORS"],
      Done (Send 500 (Json "Internal Server Error" (Some "Something went wrong") None))),
     store).
Proof.
  intros Hdev Hno. unfold front, Cors.corsOrigin. rewrite Hdev.
  destruct (negb (truthy origin) || includes (Cors.allowedOrigins config) origin) eqn:Ht.
  { exfalso. apply Hno. by apply CorsFacts.listed_test. }
  simpl. unfold ErrorHandler.errorHandler. unfold isDevelopment in Hdev.
  rewrite Hdev. reflexivity.
Qed.

Lemma refused_origin_is_answered_500_witness :
  front Sample.config (Some "http://any.example") Sample.first ∅ (ret Next) =
    (([Log WARN "CORS blocked origin: http://any.example";
       Log ERROR "Unhandled error: Not allowed by CORS"],
      Done (Send 500 (Json "Internal Server Error" (Some "Something went wrong") None))),
     ∅).
Proof.
  apply (refused_origin_is_answered_500 Sample.config (Some "http://any.example")).
  - reflexivity.
  - intros [H|(o & [= <-] & H)]; [discriminate H|].
    vm_compute in H. apply list_elem_of_singleton in H. discriminate H.
Defined.

End PipelineFacts.

(** ** Rate limiting: liveness checks and login attempts *)

Module RateLimitMore.
Import RateLimit RateLimitView.

Lemma serve_cons (o : Options) (a : Arrival) (rest : list Arrival)
    (store : gmap string Counter) :
  serve o (a :: rest) store =
  (fst (middleware o a store) :: fst (serve o rest (snd (middleware o a store))),
   snd (serve o rest (snd (middleware o a store)))).
Proof.
  simpl. destruct (middleware o a store) as [r store']. simpl.
  by destruct (serve o rest store').
Qed.

Lemma general_skips_health (config : Config) (a : Arrival) :
  skipped (generalLimiter config) (request a) = true <-> path (request a) = "/health".
Proof. simpl. apply String.eqb_eq. Qed.

(** X11. Liveness checks are invisible to the general limiter: each is
    handed on, and a run with liveness checks among the arrivals leaves
    the same counters and gives every other request the same reply as the
    run without them. *)
Theorem health_checks_are_invisible (config : Config) (arrivals : list Arrival)
    (store : gmap string Counter) :
  Forall2 (fun a r => path (request a) = "/health" -> r = ret Next)
          arrivals (fst (serve (generalLimiter config) arrivals store)) /\
  repliesWithoutHealth arrivals (fst (serve (generalLimiter config) arrivals store))
    = fst (serve (generalLimiter config) (withoutHealth arrivals) store) /\
  snd (serve (generalLimiter config) arrivals store)
    = snd (serve (generalLimiter config) (withoutHealth arrivals) store).
Proof.
  revert store. induction arrivals as [|a rest IH]; intros store.
  - split; [constructor|done].
  - rewrite serve_cons. unfold withoutHealth, repliesWithoutHealth in *.
    cbn [fst snd zip zip_with]. rewrite !filter_cons. cbn [fst].
    destruct (decide (path (request a) ≠ "/health")) as [Hn|Hh].
    + destruct (IH (snd (middleware (generalLimiter config) a store))) as (H1 & H2 & H3).
      rewrite serve_cons. cbn [fst snd fmap list_fmap].
      split; [constructor; [done|exact H1]|].
      split; [f_equal; exact H2|exact H3].
    + assert (Hp : path (request a) = "/health") by (by apply dec_stable).
      assert (Hm : middleware (generalLimiter config) a store = (ret Next, store)).
      { unfold middleware.
        by rewrite (proj2 (general_skips_health config a) Hp). }
      rewrite !Hm. cbn [fst snd].
      destruct (IH store) as (H1 & H2 & H3).
      split; [constructor; [done|exact H1]|]. split; [exact H2|exact H3].
Qed.




Section Charging.
Variable o : Options.
Variable key : string.
Variable t0 : Z.

Lemma charged_cons (a : Arrival) (l : list Arrival) :
  charged o key (a :: l) =
  ((if decide (skipped o (request a) = false /\ ip (request a) = key /\
               (skipSuccessfulRequests o = false \/ succeeded a = false))
    then 1 else 0) + charged o key l)%nat.
Proof.
  unfold charged. rewrite filter_cons. by destruct (decide _).
Qed.

Lemma charged_one (a : Arrival) :
  charged o key [a] =
  if decide (skipped o (request a) = false /\ ip (request a) = key /\
             (skipSuccessfulRequests o = false \/ succeeded a = false))
  then 1%nat else 0%nat.
Proof.
  rewrite charged_cons. change (charged o key []) with 0%nat.
  case_decide; lia.
Qed.

(** One arrival inside the window: the counter does not fall behind the
    charged arrivals. *)
Lemma middleware_charges (a : Arrival) (store : gmap string Counter) (n : Z) :
  t0 <= now a < t0 + windowMs o ->
  0 <= n ->
  atLeast o store key t0 n ->
  atLeast o (snd (middleware o a store)) key t0 (n + Z.of_nat (charged o key [a])).
Proof.
  intros Ht Hn Hat. rewrite charged_one. unfold middleware.
  destruct (skipped o (request a)) eqn:Hs.
  { cbn [snd]. case_decide as Hd; [by destruct Hd|].
    by replace (n + Z.of_nat 0) with n by lia. }
  cbn zeta.
  destruct (decide (ip (request a) = key)) as [Hk|Hk].
  - (* the client's own request *)
    assert (Hc : t0 + windowMs o <= resetTime (increment o (now a) key store) /\
                 n + 1 <= totalHits (increment o (now a) key store)).
    { unfold increment. unfold atLeast in Hat.
      destruct (store !! key) as [c|]; [|simpl; lia].
      destruct Hat as [[Hr ->]|[Hr Hh]].
      - case_bool_decide; [lia|]. simpl. lia.
      - case_bool_decide; simpl; lia. }
    destruct Hc as [Hr Hh]. rewrite Hk.
    assert (Hput : forall c m, t0 + windowMs o <= resetTime c -> m <= totalHits c ->
                               atLeast o (<[key := c]> store) key t0 m).
    { intros c m ? ?. unfold atLeast. rewrite lookup_insert_eq. by right. }
    case_bool_decide as Hlim; cbn [snd].
    + apply Hput; [done|]. case_decide; lia.
    + destruct (skipSuccessfulRequests o) eqn:Hskip; cbn [andb].
      * destruct (succeeded a) eqn:Hsucc; cbn [snd].
        -- apply Hput; [done|]. simpl.
           case_decide as Hd; [|lia]. destruct Hd as (_ & _ & [?|?]); done.
        -- apply Hput; [done|]. case_decide; lia.
      * cbn [snd]. apply Hput; [done|]. case_decide; lia.
  - (* somebody else's *)
    assert (Hkeep : forall c, atLeast o (<[ip (request a) := c]> store) key t0 n).
    { intros c. unfold atLeast in *. by rewrite lookup_insert_ne. }
    case_decide as Hd; [by destruct Hd as (_ & ? & _)|].
    replace (n + Z.of_nat 0) with n by lia.
    case_bool_decide; [apply Hkeep|].
    destruct (skipSuccessfulRequests o && succeeded a); apply Hkeep.
Qed.

Lemma serve_charges (arrivals : list Arrival) : forall (store : gmap string Counter) (n : Z),
  Forall (fun a => t0 <= now a < t0 + windowMs o) arrivals ->
  0 <= n ->
  atLeast o store key t0 n ->
  atLeast o (snd (serve o arrivals store)) key t0 (n + Z.of_nat (charged o key arrivals)).
Proof.
  induction arrivals as [|a rest IH]; intros store n Hw Hn Hat.
  - change (charged o key []) with 0%nat. cbn [serve snd].
    by replace (n + Z.of_nat 0) with n by lia.
  - apply Forall_cons in Hw as [Ha Hrest]. rewrite serve_cons. cbn [snd].
    pose proof (middleware_charges a store n Ha Hn Hat) as Hstep.
    apply (IH _ _ Hrest) in Hstep; [|lia].
    rewrite charged_cons. rewrite charged_one in Hstep.
    replace (n + Z.of_nat ((if decide (skipped o (request a) = false ∧ ip (request a) = key ∧
                                       (skipSuccessfulRequests o = false ∨ succeeded a = false))
                            then 1 else 0) + charged o key rest))
      with (n + Z.of_nat (if decide (skipped o (request a) = false ∧ ip (request a) = key ∧
                                       (skipSuccessfulRequests o = false ∨ succeeded a = false))
                           then 1 else 0) + Z.of_nat (charged o key rest)) by lia.
    exact Hstep.
Qed.

(** A request of the client that meets a counter at the ceiling or above
    goes to the handler. *)
Lemma middleware_over_ceiling (a : Arrival) (store : gmap string Counter) (n : Z) :
  t0 <= now a < t0 + windowMs o ->
  skipped o (request a) = false ->
  ip (request a) = key ->
  0 <= n -> max o <= n ->
  atLeast o store key t0 n ->
  fst (middleware o a store) = onLimit o (request a).
Proof.
  intros Ht Hs Hk Hn Hmax Hat. unfold middleware. rewrite Hs, Hk.
  assert (Hh : n + 1 <= totalHits (increment o (now a) key store)).
  { unfold increment. unfold atLeast in Hat.
    destruct (store !! key) as [c|]; [|simpl; lia].
    destruct Hat as [[Hr ->]|[Hr Hh]].
    - case_bool_decide; [lia|]. simpl. lia.
    - case_bool_decide; simpl; lia. }
  case_bool_decide; [done|lia].
Qed.

End Charging.

(** X13. Under the authentication rule, once a client has made as many
    unsuccessful requests inside one window as the ceiling (5 in
    production, 50 elsewhere), whatever successful requests it and
    whatever requests other clients made in between, its next request in
    that window is rejected, successful or not, with status 429 and the
    message object of the rule, whose retry-after is 900 seconds. *)
Theorem failed_attempts_lock_the_client_out (config : Config) (pre : list Arrival)
    (last : Arrival) (t0 : Z) (store : gmap string Counter) :
  Forall (fun a => t0 <= now a < t0 + windowMs (authLimiter config)) (pre ++ [last]) ->
  noOpenWindow store (ip (request last)) t0 ->
  max (authLimiter config) <= Z.of_nat (charged (authLimiter config) (ip (request last)) pre) ->
  fst (middleware (authLimiter config) last (snd (serve (authLimiter config) pre store)))
    = ret (Send 429 (Json "Too many authentication attempts" None (Some 900))).
Proof.
  intros Hw Hopen Hcount.
  apply Forall_app in Hw as [Hpre Hlast]. rewrite Forall_singleton in Hlast.
  assert (H0 : atLeast (authLimiter config) store (ip (request last)) t0 0).
  { unfold atLeast. unfold noOpenWindow in Hopen.
    destruct (store !! ip (request last)); [left|]; done. }
  pose proof (serve_charges (authLimiter config) (ip (request last)) t0 pre store 0
                Hpre ltac:(lia) H0) as Hat.
  assert (Hpos : 0 <= 0 + Z.of_nat (charged (authLimiter config) (ip (request last)) pre))
    by lia.
  assert (Hover : max (authLimiter config)
                  <= 0 + Z.of_nat (charged (authLimiter config) (ip (request last)) pre))
    by lia.
  rewrite (middleware_over_ceiling (authLimiter config) (ip (request last)) t0 last _ _
             Hlast eq_refl eq_refl Hpos Hover Hat).
  reflexivity.
Qed.

Lemma failed_attempts_lock_the_client_out_witness :
  fst (middleware (authLimiter Sample.config) (Scenario.attempt 6000 true)
         (snd (serve (authLimiter Sample.config)
                 [Scenario.attempt 0 false; Scenario.attempt 1000 false;
                  Scenario.attempt 2000 true; Scenario.attempt 3000 false;
                  Scenario.attempt 4000 false; Scenario.attempt 5000 false] ∅)))
    = ret (Send 429 (Json "Too many authentication attempts" None (Some 900))).
Proof.
  apply (failed_attempts_lock_the_client_out Sample.config
           [Scenario.attempt 0 false; Scenario.attempt 1000 false;
            Scenario.attempt 2000 true; Scenario.attempt 3000 false;
            Scenario.attempt 4000 false; Scenario.attempt 5000 false]
           (Scenario.attempt 6000 true) 0 ∅).
  - repeat constructor; simpl; lia.
  - exact I.
  - vm_compute. discriminate.
Defined.

End RateLimitMore.

(** ** Runs of the authentication bridge *)

Module AuthRunFacts.
Import Auth AuthRun AuthFacts.

Lemma truthy_nonempty (s : string) : truthy (Some s) = true -> s <> "".
Proof. by destruct s. Qed.

(** Where the pattern does not occur, [replace] changes nothing. *)
Lemma replace_absent (pat rep s : string) :
  occurs pat s = false -> replace pat rep s = s.
Proof.
  induction s as [|c s IH]; intros H; rewrite replace_unfold;
    cbn [occurs] in H; apply orb_false_iff in H as [Hp Ho]; rewrite Hp.
  - done.
  - by rewrite IH.
Qed.

Section Run.
Context {User : Type}.
Variable verifyToken : string -> Promise (option User).

Lemma run_cons (c : Call) (rest : list Call) (st : State User) :
  run verifyToken (c :: rest) st =
  (fst (step verifyToken c st) :: fst (run verifyToken rest (snd (step verifyToken c st))),
   snd (run verifyToken rest (snd (step verifyToken c st)))).
Proof.
  simpl. destruct (step verifyToken c st) as [r st']. simpl.
  by destruct (run verifyToken rest st').
Qed.

(** One call: the heap grows at its end, by one object at most, and a
    context that was built is the object at the old end. *)
Lemma step_heap (c : Call) (st : State User) :
  exists ext,
    heap (snd (step verifyToken c st)) = (heap st ++ ext)%list /\
    (length ext <= 1)%nat /\
    (allocates c = false -> ext = []) /\
    (allocates c = true -> forall ref, fst (step verifyToken c st) = Resolved ref ->
       ref = length (heap st) /\ length ext = 1%nat).
Proof.
  destruct c as [req|params|conn]; simpl.
  - unfold context. destruct (truthy _).
    + destruct (verifyToken _) as [u|e]; simpl.
      * eexists [_]. split; [done|]. split; [done|]. split; [done|].
        intros _ ref [= <-]. done.
      * exists []. rewrite app_nil_r. split; [done|]. split; [simpl; lia|done].
    + simpl. eexists [_]. split; [done|]. split; [done|]. split; [done|].
      intros _ ref [= <-]. done.
  - unfold onConnect. destruct (truthy _).
    + destruct (verifyToken _) as [u|e]; simpl.
      * eexists [_]. split; [done|]. split; [done|]. split; [done|].
        intros _ ref [= <-]. done.
      * exists []. rewrite app_nil_r. split; [done|]. split; [simpl; lia|done].
    + simpl. eexists [_]. split; [done|]. split; [done|]. split; [done|].
      intros _ ref [= <-]. done.
  - exists []. rewrite app_nil_r. split; [done|]. split; [simpl; lia|]. split; done.
Qed.

(** A run: the heap grows at its end, and the contexts built lie in the
    part that was added. *)
Lemma run_heap (calls : list Call) : forall (st : State User),
  exists ext,
    heap (snd (run verifyToken calls st)) = (heap st ++ ext)%list /\
    forall i c ref,
      calls !! i = Some c -> allocates c = true ->
      fst (run verifyToken calls st) !! i = Some (Resolved ref) ->
      (length (heap st) <= ref < length (heap st) + length ext)%nat.
Proof.
  induction calls as [|c rest IH]; intros st.
  - exists []. rewrite app_nil_r. split; [done|]. intros i c ref Hi. done.
  - rewrite run_cons. cbn [fst snd].
    destruct (step_heap c st) as (ext1 & He1 & Hl1 & _ & Ha1).
    destruct (IH (snd (step verifyToken c st))) as (ext2 & He2 & Hrefs).
    exists (ext1 ++ ext2)%list. split.
    + rewrite He2, He1. by rewrite <- app_assoc.
    + intros i c' ref Hi Hal Hr. rewrite length_app. destruct i as [|i]; simpl in *.
      * injection Hi as <-. injection Hr as Hr.
        destruct (Ha1 Hal ref Hr) as [-> Hone]. lia.
      * specialize (Hrefs i c' ref Hi Hal Hr). rewrite He1, length_app in Hrefs. lia.
Qed.

End Run.

(** X14. Context objects are never shared between requests and never
    changed by the bridge.  Over any run of HTTP operations, handshakes
    and operations on connections: an object that was in the heap is
    still there, unchanged; and the contexts built for two different HTTP
    operations or handshakes are two different objects, neither of which
    existed before the run. *)
Theorem contexts_are_fresh_and_kept {User : Type}
    (verifyToken : string -> Promise (option User))
    (calls : list Call) (st : State User) :
  (forall ref c, heap st !! ref = Some c ->
                 heap (snd (run verifyToken calls st)) !! ref = Some c) /\
  (forall i c ref, calls !! i = Some c -> allocates c = true ->
                   fst (run verifyToken calls st) !! i = Some (Resolved ref) ->
                   heap st !! ref = None /\
                   is_Some (heap (snd (run verifyToken calls st)) !! ref)) /\
  (forall i j ci cj a b,
     (i < j)%nat ->
     calls !! i = Some ci -> allocates ci = true ->
     calls !! j = Some cj -> allocates cj = true ->
     fst (run verifyToken calls st) !! i = Some (Resolved a) ->
     fst (run verifyToken calls st) !! j = Some (Resolved b) ->
     (a < b)%nat).
Proof.
  split; [|split].
  - intros ref c Hc. destruct (run_heap verifyToken calls st) as (ext & -> & _).
    by apply lookup_app_l_Some.
  - intros i c ref Hi Hal Hr.
    destruct (run_heap verifyToken calls st) as (ext & He & Hrefs).
    specialize (Hrefs i c ref Hi Hal Hr). split.
    + apply lookup_ge_None. lia.
    + apply lookup_lt_is_Some. rewrite He, length_app. lia.
  - revert st. induction calls as [|c rest IH]; intros st i j ci cj a b Hij Hi Hai Hj Haj Hra Hrb.
    { done. }
    rewrite run_cons in Hra, Hrb. cbn [fst] in Hra, Hrb.
    destruct j as [|j]; [lia|]. simpl in Hj, Hrb.
    destruct i as [|i]; simpl in Hi, Hra.
    + injection Hi as <-. injection Hra as Hra.
      destruct (step_heap verifyToken c st) as (ext1 & He1 & _ & _ & Ha1).
      destruct (Ha1 Hai a Hra) as [-> Hone].
      destruct (run_heap verifyToken rest (snd (step verifyToken c st))) as (ext & _ & Hrefs).
      specialize (Hrefs j cj b Hj Haj Hrb). rewrite He1, length_app in Hrefs. lia.
    + apply (IH (snd (step verifyToken c st)) i j ci cj a b); try done. lia.
Qed.

Lemma contexts_are_fresh_and_kept_witness :
  heap Sample.noContexts !! 1%nat = None /\
  is_Some (heap (snd (run Sample.verifyToken
                        [Query Sample.client;
                         Handshake {| params_authorization := Some "Bearer t0k3n" |}]
                        Sample.noContexts)) !! 1%nat).
Proof.
  destruct (contexts_are_fresh_and_kept Sample.verifyToken
              [Query Sample.client; Handshake {| params_authorization := Some "Bearer t0k3n" |}]
              Sample.noContexts) as (_ & H & _).
  apply (H 1%nat (Handshake {| params_authorization := Some "Bearer t0k3n" |}));
    reflexivity.
Defined.

(** X15. The bridge does not contain a failure of the verifier: when a
    credential is presented and [verifyToken] rejects, the HTTP context
    function and the handshake both reject with that very error, after
    the one call of the verifier, and build no context object; the caller
    is not treated as anonymous. *)
Theorem verifier_rejection_is_passed_on {User : Type}
    (verifyToken : string -> Promise (option User))
    (credential : option string) (address route : string) (st : State User) (e : Error) :
  truthy (tokenOf credential) = true ->
  verifyToken (theString (tokenOf credential)) = Rejected e ->
  context verifyToken
    (OfRequest {| ip := address; path := route; authorization := credential |}) st
    = (Rejected e, {| heap := heap st;
                      verified := verified st ++ [theString (tokenOf credential)] |}) /\
  onConnect verifyToken {| params_authorization := credential |} st
    = (Rejected e, {| heap := heap st;
                      verified := verified st ++ [theString (tokenOf credential)] |}).
Proof.
  intros Ht Hv. unfold context, onConnect. cbn [authorization params_authorization].
  rewrite Ht, Hv. done.
Qed.

Lemma verifier_rejection_is_passed_on_witness :
  context Scenario.brokenVerifier
    (OfRequest {| ip := "10.0.0.1"; path := "/graphql";
                  authorization := Some "Bearer t0k3n" |}) Sample.noContexts
    = (Rejected (newError "jwt malformed"), {| heap := []; verified := ["t0k3n"] |}) /\
  onConnect Scenario.brokenVerifier {| params_authorization := Some "Bearer t0k3n" |}
    Sample.noContexts
    = (Rejected (newError "jwt malformed"), {| heap := []; verified := ["t0k3n"] |}).
Proof.
  apply (verifier_rejection_is_passed_on Scenario.brokenVerifier (Some "Bearer t0k3n")
           "10.0.0.1" "/graphql" Sample.noContexts (newError "jwt malformed"));
    reflexivity.
Defined.

(** X16. The scheme word is optional: a header that is the bare token,
    with no ["Bearer "] in it, is resolved exactly as the header
    ["Bearer "] followed by that token, on both transports: same
    identity, same call of the verifier. *)
Theorem bare_token_is_accepted {User : Type}
    (verifyToken : string -> Promise (option User))
    (token address route : string) (st : State User) :
  occurs "Bearer " token = false ->
  resolvedUser (context verifyToken
      (OfRequest {| ip := address; path := route; authorization := Some token |}) st)
  = resolvedUser (context verifyToken
      (OfRequest {| ip := address; path := route;
                    authorization := Some ("Bearer " +:+ token) |}) st) /\
  verified (snd (context verifyToken
      (OfRequest {| ip := address; path := route; authorization := Some token |}) st))
  = verified (snd (context verifyToken
      (OfRequest {| ip := address; path := route;
                    authorization := Some ("Bearer " +:+ token) |}) st)) /\
  resolvedUser (onConnect verifyToken {| params_authorization := Some token |} st)
  = resolvedUser (onConnect verifyToken
                    {| params_authorization := Some ("Bearer " +:+ token) |} st) /\
  verified (snd (onConnect verifyToken {| params_authorization := Some token |} st))
  = verified (snd (onConnect verifyToken
                     {| params_authorization := Some ("Bearer " +:+ token) |} st)).
Proof.
  intros Hno.
  assert (Htok : tokenOf (Some token) = tokenOf (Some ("Bearer " +:+ token))).
  { unfold tokenOf. cbn [option_map]. by rewrite replace_Bearer, replace_absent. }
  split; [|split; [|split]].
  - rewrite !context_resolves. cbn [authorization]. by rewrite Htok.
  - rewrite !context_verified. cbn [authorization]. by rewrite Htok.
  - rewrite !onConnect_resolves. cbn [params_authorization]. by rewrite Htok.
  - rewrite !onConnect_verified. cbn [params_authorization]. by rewrite Htok.
Qed.

Lemma bare_token_is_accepted_witness :
  resolvedUser (context Sample.verifyToken
      (OfRequest {| ip := "10.0.0.1"; path := "/graphql"; authorization := Some "t0k3n" |})
      Sample.noContexts)
  = Resolved (Some (Some "alice")).
Proof.
  destruct (bare_token_is_accepted Sample.verifyToken "t0k3n" "10.0.0.1" "/graphql"
              Sample.noContexts) as [H _]; [reflexivity|].
  rewrite H. reflexivity.
Defined.

Section Verifier.
Context {User : Type}.
Variable verifyToken : string -> Promise (option User).

(** One call asks the verifier at most once, and not with the empty
    string. *)
Lemma step_verified (c : Call) (st : State User) :
  exists new,
    verified (snd (step verifyToken c st)) = (verified st ++ new)%list /\
    Forall (fun t => t <> "") new /\
    (length new <= if allocates c then 1 else 0)%nat.
Proof.
  destruct c as [req|params|conn]; cbn [step allocates].
  - rewrite context_verified.
    destruct (truthy (tokenOf (authorization req))) eqn:Htr.
    + exists [theString (tokenOf (authorization req))]. split; [done|]. split; [|simpl; lia].
      constructor; [|constructor].
      destruct (tokenOf (authorization req)) as [t|]; [|done].
      by apply truthy_nonempty.
    + exists []. rewrite app_nil_r. split; [done|]. split; [constructor|simpl; lia].
  - rewrite onConnect_verified.
    destruct (truthy (tokenOf (params_authorization params))) eqn:Htr.
    + exists [theString (tokenOf (params_authorization params))]. split; [done|]. split; [|simpl; lia].
      constructor; [|constructor].
      destruct (tokenOf (params_authorization params)) as [t|]; [|done].
      by apply truthy_nonempty.
    + exists []. rewrite app_nil_r. split; [done|]. split; [constructor|simpl; lia].
  - exists []. rewrite app_nil_r. split; [done|]. split; [constructor|simpl; lia].
Qed.

End Verifier.

(** X17. Over any run of HTTP operations, handshakes and operations on
    connections, the verifier is asked at most once per HTTP operation
    or handshake, never for an operation on a connection, and never with
    the empty string. *)
Theorem verifier_calls_are_bounded {User : Type}
    (verifyToken : string -> Promise (option User))
    (calls : list Call) (st : State User) :
  exists new,
    verified (snd (run verifyToken calls st)) = (verified st ++ new)%list /\
    Forall (fun t => t <> "") new /\
    (length new <= length (filter (fun c => allocates c = true) calls))%nat.
Proof.
  revert st. induction calls as [|c rest IH]; intros st.
  - exists []. rewrite app_nil_r. split; [done|]. split; [constructor|simpl; lia].
  - rewrite run_cons. cbn [snd].
    destruct (step_verified verifyToken c st) as (new1 & H1 & Hne1 & Hl1).
    destruct (IH (snd (step verifyToken c st))) as (new2 & H2 & Hne2 & Hl2).
    exists (new1 ++ new2)%list. split; [|split].
    + rewrite H2, H1. by rewrite <- app_assoc.
    + by apply Forall_app.
    + rewrite length_app, filter_cons.
      destruct (allocates c); case_decide; simpl in *; try done; lia.
Qed.

End AuthRunFacts.

(** ** Real-time rooms *)

Module RealtimeFacts.
Import Realtime.

Lemma handleAll_cons (id : string) (e : SocketEvent) (rest : list (string * SocketEvent))
    (members : gset (string * string)) :
  snd (handleAll ((id, e) :: rest) members) = snd (handleAll rest (snd (handle id e members))).
Proof.
  simpl. destruct (handle id e members) as [r m]. simpl.
  by destruct (handleAll rest m).
Qed.

(** One event, read on one socket and one room. *)
Lemma handle_says (id room : string) (ev : string * SocketEvent)
    (members : gset (string * string)) :
  (id, room) ∈ snd (handle ev.1 ev.2 members)
  <-> says id room (bool_decide ((id, room) ∈ members)) ev = true.
Proof.
  destruct ev as [sid e]. unfold says. cbn [fst snd].
  destruct e as [|i|i|]; cbn [handle snd]; case_bool_decide as Hid.
  - rewrite elem_of_union, elem_of_singleton, orb_true_iff, !bool_decide_eq_true.
    split; (intros [H|H]; [left|by right]); congruence.
  - rewrite elem_of_union, elem_of_singleton, bool_decide_eq_true.
    split; [intros [H|H]; [congruence|done]|by right].
  - rewrite elem_of_union, elem_of_singleton, orb_true_iff, !bool_decide_eq_true.
    split; (intros [H|H]; [left|by right]); congruence.
  - rewrite elem_of_union, elem_of_singleton, bool_decide_eq_true.
    split; [intros [H|H]; [congruence|done]|by right].
  - rewrite elem_of_difference, elem_of_singleton, andb_true_iff, negb_true_iff,
            bool_decide_eq_false, bool_decide_eq_true.
    split; intros [H1 H2]; split; try done; congruence.
  - rewrite elem_of_difference, elem_of_singleton, bool_decide_eq_true.
    split; [by intros [H _]|]. intros H. split; [done|]. congruence.
  - rewrite elem_of_filter. cbn [fst]. split; [intros [H _]; congruence|done].
  - rewrite elem_of_filter, bool_decide_eq_true. cbn [fst].
    split; [by intros [_ H]|]. intros H. split; [congruence|done].
Qed.

(** A run of events, read on one socket and one room. *)
Lemma handleAll_says (id room : string) (events : list (string * SocketEvent)) :
  forall members : gset (string * string),
  (id, room) ∈ snd (handleAll events members)
  <-> foldl (says id room) (bool_decide ((id, room) ∈ members)) events = true.
Proof.
  induction events as [|[sid e] rest IH]; intros members.
  - simpl. by rewrite bool_decide_eq_true.
  - rewrite handleAll_cons, IH. cbn [foldl].
    pose proof (handle_says id room (sid, e) members) as Hs. cbn [fst snd] in Hs.
    destruct (says id room (bool_decide ((id, room) ∈ members)) (sid, e)) eqn:Hsays.
    + rewrite bool_decide_true; [done|]. by apply Hs.
    + rewrite bool_decide_false; [done|]. intros Hin. apply Hs in Hin. done.
Qed.

Lemma append_cancel (prefix a b : string) : prefix +:+ a = prefix +:+ b -> a = b.
Proof.
  induction prefix as [|c prefix IH]; [done|].
  rewrite !AuthFacts.app_String. intros [= H]. by apply IH.
Qed.

Lemma roomOf_string_inj (i j : string) : roomOf (Some i) = roomOf (Some j) -> i = j.
Proof. unfold roomOf. cbn [interpolate]. apply append_cancel. Qed.

(** X18. The membership of a socket in a room is decided by that
    socket's own events about that room: over any run of events of any
    sockets, the socket is in the room at the end exactly when folding
    [says] over the run, from what held at the start, says so: a join of
    the room makes it hold, a leave of the room or a disconnect makes it
    fail, everything else leaves it as it was. *)
Theorem membership_follows_own_events (id room : string)
    (events : list (string * SocketEvent)) (members : gset (string * string)) :
  (id, room) ∈ snd (handleAll events members)
  <-> foldl (says id room) (bool_decide ((id, room) ∈ members)) events = true.
Proof. apply handleAll_says. Qed.

(** X20. Activity elsewhere does not move a socket: over a run made only
    of events of other sockets and of joins and leaves of other
    investigations (ids given as strings), the socket is in the room of
    an investigation at the end exactly when it was at the start. *)
Theorem membership_is_untouched_by_others (id i : string)
    (events : list (string * SocketEvent)) (members : gset (string * string)) :
  Forall (fun ev => ev.1 <> id \/
                    exists j, j <> i /\ (ev.2 = join_investigation (Some j) \/
                                         ev.2 = leave_investigation (Some j))) events ->
  (id, roomOf (Some i)) ∈ snd (handleAll events members)
  <-> (id, roomOf (Some i)) ∈ members.
Proof.
  intros Hothers. rewrite handleAll_says.
  assert (Hfold : forall b, foldl (says id (roomOf (Some i))) b events = b).
  { induction Hothers as [|ev rest Hev _ IH]; intros b; [done|].
    cbn [foldl].
    assert (Hsame : says id (roomOf (Some i)) b ev = b); [|by rewrite Hsame].
    unfold says. case_bool_decide as Hid; [|done].
    destruct Hev as [?|(j & Hj & [->| ->])]; [done| |].
    - rewrite bool_decide_false; [done|]. intros ?%roomOf_string_inj. done.
    - rewrite bool_decide_false; [done|]. intros ?%roomOf_string_inj. done. }
  rewrite Hfold. apply bool_decide_eq_true.
Qed.

Lemma membership_is_untouched_by_others_witness :
  ("s1", roomOf (Some "42")) ∈
    snd (handleAll [("s2", join_investigation (Some "42")); ("s1", join_investigation (Some "7"));
                    ("s2", disconnect); ("s1", leave_investigation (Some "7"))]
           {[ ("s1", roomOf (Some "42")) ]})
  <-> ("s1", roomOf (Some "42")) ∈ ({[ ("s1", roomOf (Some "42")) ]} : gset (string * string)).
Proof.
  apply (membership_is_untouched_by_others "s1" "42").
  apply Forall_cons. split; [left; discriminate|].
  apply Forall_cons. split; [right; exists "7"; split; [discriminate|by left]|].
  apply Forall_cons. split; [left; discriminate|].
  apply Forall_cons. split; [right; exists "7"; split; [discriminate|by right]|].
  apply Forall_nil_2.
Defined.

(** X19. Clients cannot put a socket into a room of their choosing: over
    any run of events, from a membership in which every room is a
    socket's own room or an investigation room, every room is still one
    of these. *)
Theorem rooms_stay_well_named (events : list (string * SocketEvent))
    (members : gset (string * string)) :
  wellNamed members ->
  wellNamed (snd (handleAll events members)).
Proof.
  revert members. induction events as [|[sid e] rest IH]; intros members Hw.
  - done.
  - rewrite handleAll_cons. apply IH. clear IH.
    intros id room Hin.
    destruct e as [|i|i|]; cbn [handle snd] in Hin.
    + apply elem_of_union in Hin as [Hin|Hin]; [|by apply Hw].
      apply elem_of_singleton in Hin. injection Hin as -> ->. by left.
    + apply elem_of_union in Hin as [Hin|Hin]; [|by apply Hw].
      apply elem_of_singleton in Hin. injection Hin as -> ->. right. by exists i.
    + apply elem_of_difference in Hin as [Hin _]. by apply Hw.
    + apply elem_of_filter in Hin as [_ Hin]. by apply Hw.
Qed.

Lemma rooms_stay_well_named_witness :
  wellNamed (snd (handleAll [("s1", connection); ("s1", join_investigation (Some "42"));
                             ("s2", connection); ("s1", leave_investigation (Some "7"))] ∅)).
Proof.
  apply rooms_stay_well_named. intros id room H. by apply elem_of_empty in H.
Defined.

End RealtimeFacts.

(** ** Contexts of persistent connections *)

Module ConnectionFacts.
Import Auth AuthRun AuthFacts AuthRunFacts.

Section Operations.
Context {User : Type}.
Variable verifyToken : string -> Promise (option User).




End Operations.




End ConnectionFacts.
